(** * Transcript scanner: path decoding and the scan pipeline

    A shallow embedding of [src/analytics/transcript-scanner.ts] and the
    properties its specification states about it.

    Conventions of the embedding.
    - A JavaScript string is a sequence of code units; it is modelled by
      [string], one [ascii] per code unit, so the model covers the strings
      whose code units are below 256.
    - The file system, the home directory, [path.join] and the regular
      expression engine are the environment of the program: they are
      fields of the record [Host] (or, for the decoder, the oracle
      [existsSync]) and are never inspected by the definitions.
    - A call that can reject or throw returns a [result]; [await] is
      sequencing in that monad.
    - File sizes and modification times are integers ([N] bytes, [Z]
      milliseconds of a valid [Date]).  The sizes are JavaScript numbers:
      their addition is [JsNumber.add], exact below 2^53 and rounded to
      the nearest double from there on.
    - One scan sees one state of the file system: a path gets the same
      answer each time it is asked about. *)

From Equations Require Import Equations.
From Stdlib Require Import String Ascii List Bool Arith Lia ZArith NArith ListSet.
Import ListNotations.

Open Scope string_scope.
Open Scope list_scope.

Infix "+++" := String.append (at level 60, right associativity).

(** ** String primitives of the host language *)

Module JsString.

(** [s.startsWith(p)] *)
Definition startsWith (p s : string) : bool := String.prefix p s.

(** [s.slice(n)], for [0 <= n] *)
Fixpoint slice (n : nat) (s : string) : string :=
  match n, s with
  | 0, _ => s
  | S _, EmptyString => EmptyString
  | S n', String _ s' => slice n' s'
  end.

(** [s.endsWith(p)] *)
Definition endsWith (p s : string) : bool :=
  Nat.leb (String.length p) (String.length s)
  && String.eqb (slice (String.length s - String.length p) s) p.

(** [s.replace(/c/g, by)]: every occurrence of the code unit [c] is
    replaced by the string [by_]. *)
Fixpoint replaceAll (c : ascii) (by_ : string) (s : string) : string :=
  match s with
  | EmptyString => EmptyString
  | String d s' =>
      if Ascii.eqb d c then by_ +++ replaceAll c by_ s'
      else String d (replaceAll c by_ s')
  end.

(** [s.replace(pat, by)] with a string pattern: only the first occurrence
    of [pat] is replaced. *)
Fixpoint replaceFirst (pat by_ : string) (s : string) : string :=
  if String.prefix pat s then by_ +++ slice (String.length pat) s
  else match s with
       | EmptyString => EmptyString
       | String d s' => String d (replaceFirst pat by_ s')
       end.

(** [s.split(c)] for a separator of one code unit: never empty, the empty
    string splits into one empty piece. *)
Fixpoint split (c : ascii) (s : string) : list string :=
  match s with
  | EmptyString => [EmptyString]
  | String d s' =>
      if Ascii.eqb d c then EmptyString :: split c s'
      else match split c s' with
           | h :: t => String d h :: t
           | [] => [String d EmptyString]
           end
  end.

(** [a.join(sep)] *)
Definition join (sep : string) (a : list string) : string := String.concat sep a.

(** [a.pop()]: the removed last element ([None] for [undefined]) and the
    array that is left. *)
Definition pop (a : list string) : option string * list string :=
  match a with
  | [] => (None, [])
  | _ :: _ => (Some (List.last a EmptyString), List.removelast a)
  end.

(** A string is truthy when it is not empty. *)
Definition truthy (s : string) : bool := negb (String.eqb s EmptyString).

(** [x || ''] for [x] a string or [undefined] *)
Definition orEmpty (x : option string) : string :=
  match x with
  | Some s => if truthy s then s else EmptyString
  | None => EmptyString
  end.

End JsString.

(** ** PathDecoder *)

Module PathDecoder.
Import JsString.

(** [generatePaths(parts, index, currentPath)]: the array [possiblePaths]
    that the closure pushes to is passed in and returned.  The recursion
    is the source's, on [index] running up to [parts.length];
    [pathParts.pop()] gives the last piece and leaves the others. *)
Equations? generatePaths (parts : list string) (index : nat)
    (currentPath : string) (possiblePaths : list string)
    : list string by wf (List.length parts - index) lt :=
  generatePaths parts index currentPath possiblePaths
    with le_lt_dec (List.length parts) index := {
    | left _ => possiblePaths ++ [currentPath]
    | right _ =>
        (* Try adding next segment as a new directory *)
        let possiblePaths :=
          generatePaths parts (index + 1)
            (currentPath +++ "/" +++ nth index parts "") possiblePaths in
        (* Try combining with previous segment using hyphen *)
        if Nat.ltb 0 index && truthy currentPath then
          let pathParts := split "/" currentPath in
          let lastPart := orEmpty (fst (pop pathParts)) in
          let pathParts := snd (pop pathParts) in
          let newPath :=
            join "/" pathParts +++ "/" +++ lastPart +++ "-" +++ nth index parts "" in
          generatePaths parts (index + 1) newPath possiblePaths
        else possiblePaths }.
Proof. all: lia. Qed.

Section Decoder.

(** [existsSync]: whether a path exists on the file system; it never
    throws. *)
Variable existsSync : string -> bool.

Definition simpleDecode (dirName : string) : string :=
  "/" +++ replaceAll "-" "/" (slice 1 dirName).

Definition decodeProjectPath (dirName : string) : string :=
  if negb (startsWith "-" dirName) then dirName
  else
    let simplePath := simpleDecode dirName in
    if existsSync simplePath then simplePath
    else
      let segments := split "-" (slice 1 dirName) in
      let possiblePaths := generatePaths segments 0 "" [] in
      match List.find existsSync possiblePaths with
      | Some path => path
      | None => simplePath
      end.

End Decoder.

End PathDecoder.

(** ** Regular expressions of the host language

    The scanner uses two regular expressions: the literal [UUID_REGEX] and
    one built from the project filter.  This module is the part of the
    host's engine that they need: expressions anchored at both ends
    ([^ ... $], no flags) whose body is a sequence of quantified atoms.
    [test] answers whether the whole string is matched; the order in which
    the host tries the alternatives of a quantifier does not change that
    answer. *)

Module RegExp.

Inductive atom : Type :=
| Char (c : ascii)                       (* a literal code unit *)
| Any                                    (* [.] *)
| Class (ranges : list (ascii * ascii)). (* [[a-f0-9]] *)

Inductive quant : Type :=
| Once
| Star                                   (* [*] *)
| Plus                                   (* [+] *)
| Exactly (n : nat).                     (* [{n}] *)

Definition regex : Type := list (atom * quant).

(** Without the [s] flag the dot matches every code unit but the line
    terminators (of which line feed and carriage return are below 256). *)
Definition lineTerminator (c : ascii) : bool :=
  Ascii.eqb c "010" || Ascii.eqb c "013".

Definition inRange (c : ascii) (r : ascii * ascii) : bool :=
  Nat.leb (nat_of_ascii (fst r)) (nat_of_ascii c)
  && Nat.leb (nat_of_ascii c) (nat_of_ascii (snd r)).

Definition matchesAtom (a : atom) (c : ascii) : bool :=
  match a with
  | Char d => Ascii.eqb c d
  | Any => negb (lineTerminator c)
  | Class ranges => existsb (inRange c) ranges
  end.

(** [a*] followed by the continuation [k] *)
Fixpoint star (a : atom) (k : string -> bool) (s : string) : bool :=
  k s ||
  match s with
  | EmptyString => false
  | String c s' => matchesAtom a c && star a k s'
  end.

(** [a{n}] followed by the continuation [k] *)
Fixpoint exactly (a : atom) (n : nat) (k : string -> bool) (s : string) : bool :=
  match n with
  | 0 => k s
  | S n' =>
      match s with
      | EmptyString => false
      | String c s' => matchesAtom a c && exactly a n' k s'
      end
  end.

(** The items, then the end of the input ([$]). *)
Fixpoint matchItems (r : regex) (s : string) : bool :=
  match r with
  | [] => String.eqb s EmptyString
  | (a, Once) :: r' => exactly a 1 (matchItems r') s
  | (a, Star) :: r' => star a (matchItems r') s
  | (a, Plus) :: r' => exactly a 1 (star a (matchItems r')) s
  | (a, Exactly n) :: r' => exactly a n (matchItems r') s
  end.

(** [r.test(s)] *)
Definition test (r : regex) (s : string) : bool := matchItems r s.

(** *** Reading an expression from its source

    The fragment of the syntax that is read: [^], then atoms that are a
    plain code unit, a dot or an escaped syntax character, each with an
    optional [*] or [+], then [$].  Every other source is outside the
    fragment ([None]). *)

Definition syntaxChar (c : ascii) : bool :=
  existsb (Ascii.eqb c)
    ["^"; "$"; "\"; "."; "*"; "+"; "?"; "("; ")"; "["; "]"; "{"; "}"; "|"]%char.

Inductive token : Type :=
| TAtom (a : atom)
| TStar
| TPlus
| TDollar
| TOther.

Fixpoint tokens (s : string) : list token :=
  match s with
  | EmptyString => []
  | String c rest =>
      if Ascii.eqb c "\" then
        match rest with
        | EmptyString => [TOther]
        | String d rest' =>
            (if syntaxChar d then TAtom (Char d) else TOther) :: tokens rest'
        end
      else if Ascii.eqb c "." then TAtom Any :: tokens rest
      else if Ascii.eqb c "*" then TStar :: tokens rest
      else if Ascii.eqb c "+" then TPlus :: tokens rest
      else if Ascii.eqb c "$" then TDollar :: tokens rest
      else if syntaxChar c then TOther :: tokens rest
      else TAtom (Char c) :: tokens rest
  end.

Fixpoint parseItems (ts : list token) : option regex :=
  match ts with
  | [TDollar] => Some []
  | TAtom a :: TStar :: ts' => option_map (cons (a, Star)) (parseItems ts')
  | TAtom a :: TPlus :: ts' => option_map (cons (a, Plus)) (parseItems ts')
  | TAtom a :: ts' => option_map (cons (a, Once)) (parseItems ts')
  | _ => None
  end.

Definition parse (source : string) : option regex :=
  match source with
  | String "^" body => parseItems (tokens body)
  | _ => None
  end.

End RegExp.

(** ** Errors and results *)

(** A thrown value: [code] is the [code] property of a
    [NodeJS.ErrnoException], absent on other errors. *)
Record Error : Type := mkError { code : option string; message : string }.

Inductive result (A : Type) : Type :=
| Return (a : A)
| Throw (error : Error).
Arguments Return {A} a.
Arguments Throw {A} error.

Definition bind {A B : Type} (m : result A) (k : A -> result B) : result B :=
  match m with
  | Return a => k a
  | Throw error => Throw error
  end.

Notation "x <- m ;; k" := (bind m (fun x => k))
  (at level 61, m at next level, right associativity).

(** [for (const x of xs) body]: the body updates the loop state or throws,
    which ends the loop. *)
Fixpoint forOf {A S : Type} (xs : list A) (body : A -> S -> result S) (st : S)
    : result S :=
  match xs with
  | [] => Return st
  | x :: xs' => st' <- body x st ;; forOf xs' body st'
  end.

(** ** Numbers of the host language

    A file size is a JavaScript number that holds a non-negative
    integer.  The sum of two of them is the exact sum rounded to the
    nearest number with a significand of 53 bits, ties to the even
    significand; below 2^53 nothing is rounded.  The exponent range is
    not part of the model: sums of file sizes stay far below 2^1024. *)

Module JsNumber.

Definition roundToDouble (n : N) : N :=
  if (n <? 2 ^ 53)%N then n
  else
    let dropped := (N.log2 n - 52)%N in           (* bits that do not fit *)
    let significand := N.shiftr n dropped in
    let rest := (n - N.shiftl significand dropped)%N in
    let half := N.shiftl 1 (dropped - 1) in
    let significand :=
      if (half <? rest)%N || ((rest =? half)%N && N.odd significand)
      then (significand + 1)%N
      else significand in
    N.shiftl significand dropped.

(** [a + b] *)
Definition add (a b : N) : N := roundToDouble (a + b).

End JsNumber.

(** ** TranscriptScanner *)

Module Scanner.
Import JsString PathDecoder.

Record TranscriptFile : Type := mkTranscriptFile {
  projectPath : string;
  projectDir : string;
  sessionId : string;
  filePath : string;
  fileSize : N;
  modifiedTime : Z
}.

Record ScanResult : Type := mkScanResult {
  transcripts : list TranscriptFile;
  totalSize : N;
  projectCount : nat
}.

Record ScanOptions : Type := mkScanOptions {
  projectFilter : option string;
  minDate : option Z
}.

(** A [Dirent] of [readdir(..., { withFileTypes: true })] *)
Record Dirent : Type := mkDirent { name : string; isDirectory : bool }.

(** The fields of [Stats] that are read *)
Record Stats : Type := mkStats { size : N; mtime : Z }.

(** The environment of one scan.  [RegExp_test source s] is
    [new RegExp(source).test(s)], which throws when [source] is not a
    regular expression. *)
Record Host : Type := mkHost {
  homedir : string;
  path_join : list string -> string;
  existsSync : string -> bool;
  readdirWithFileTypes : string -> result (list Dirent);
  readdir : string -> result (list string);
  stat : string -> result Stats;
  RegExp_test : string -> string -> result bool
}.

(** [/^[a-f0-9]{8}-[a-f0-9]{4}-[a-f0-9]{4}-[a-f0-9]{4}-[a-f0-9]{12}$/] *)
Definition hexClass : RegExp.atom := RegExp.Class [("a", "f"); ("0", "9")]%char.

Definition UUID_REGEX : RegExp.regex :=
  let dash := RegExp.Char "-" in
  [ (hexClass, RegExp.Exactly 8); (dash, RegExp.Once);
    (hexClass, RegExp.Exactly 4); (dash, RegExp.Once);
    (hexClass, RegExp.Exactly 4); (dash, RegExp.Once);
    (hexClass, RegExp.Exactly 4); (dash, RegExp.Once);
    (hexClass, RegExp.Exactly 12) ].

(** The loop state: the array [transcripts] and the set [projectDirs]
    (a [Set] keeps one copy of each string, in insertion order). *)
Definition State : Type := list TranscriptFile * set string.

Definition emptyResult : ScanResult :=
  {| transcripts := []; totalSize := 0; projectCount := 0 |}.

(** [error.code === 'ENOENT'] *)
Definition notFound (error : Error) : bool :=
  match code error with
  | Some c => String.eqb c "ENOENT"
  | None => false
  end.

(** [join(homedir(), '.claude', 'projects')] *)
Definition projectsDirOf (w : Host) : string :=
  path_join w [homedir w; ".claude"; "projects"].

Section Scan.

Variable w : Host.

Definition matchesPattern (path : string) (pattern : option string) : result bool :=
  match pattern with
  | None => Return true
  | Some pattern =>
      if negb (truthy pattern) then Return true
      else
        let regexPattern :=
          replaceAll "?" "." (replaceAll "*" ".*" (replaceAll "." "\." pattern)) in
        RegExp_test w ("^" +++ regexPattern +++ "$") path
  end.

Variable options : ScanOptions.

(** The body of the loop over the files of one project directory. *)
Definition scanFile (projectPath projectDir fullProjectPath : string)
    (fileName : string) (st : State) : result State :=
  if String.eqb fileName "sessions-index.json" || negb (endsWith ".jsonl" fileName)
  then Return st
  else
    let sessionId := replaceFirst ".jsonl" "" fileName in
    if negb (RegExp.test UUID_REGEX sessionId) then Return st
    else
      let filePath := path_join w [fullProjectPath; fileName] in
      fileStats <- stat w filePath ;;
      if match minDate options with
         | Some minDate => Z.ltb (mtime fileStats) minDate
         | None => false
         end
      then Return st
      else
        Return
          (fst st ++ [ {| projectPath := projectPath;
                          projectDir := projectDir;
                          sessionId := sessionId;
                          filePath := filePath;
                          fileSize := size fileStats;
                          modifiedTime := mtime fileStats |} ],
           set_add string_dec projectDir (snd st)).

(** The body of the loop over the entries of the projects directory. *)
Definition scanEntry (projectsDir : string) (entry : Dirent) (st : State)
    : result State :=
  if negb (isDirectory entry) then Return st
  else
    let projectDir := name entry in
    let projectPath := decodeProjectPath (existsSync w) projectDir in
    matched <- matchesPattern projectPath (projectFilter options) ;;
    if negb matched then Return st
    else
      let fullProjectPath := path_join w [projectsDir; projectDir] in
      projectFiles <- readdir w fullProjectPath ;;
      forOf projectFiles (scanFile projectPath projectDir fullProjectPath) st.

(** The [try] block *)
Definition tryBlock (projectsDir : string) (st : State) : result State :=
  entries <- readdirWithFileTypes w projectsDir ;;
  forOf entries (scanEntry projectsDir) st.

Definition scanTranscripts : result ScanResult :=
  let projectsDir := projectsDirOf w in
  match tryBlock projectsDir ([], empty_set string) with
  | Throw error =>
      if notFound error then Return emptyResult else Throw error
  | Return (transcripts, projectDirs) =>
      let totalSize :=
        fold_left (fun sum t => JsNumber.add sum (fileSize t)) transcripts 0%N in
      Return {| transcripts := transcripts;
                totalSize := totalSize;
                projectCount := List.length projectDirs |}
  end.

End Scan.

End Scanner.

(** ** The specification's own notions

    These definitions follow the words of the specification, not the
    code; the theorems below compare the code with them. *)

Module Spec.
Import JsString.

(** *** Candidate paths (specification 4.1, step 3)

    A candidate is a grouping of consecutive segments into components.
    The enumeration is depth-first; at each segment the choice "start a
    new component" comes before "append to the previous component,
    joined by the marker", and the second choice needs a previous
    component. *)

Definition newComponent (comps : list string) (seg : string) : list string :=
  comps ++ [seg].

Definition mergeWithPrevious (comps : list string) (seg : string) : list string :=
  removelast comps ++ [last comps "" +++ "-" +++ seg].

Fixpoint groupings (segs : list string) (comps : list string)
    : list (list string) :=
  match segs with
  | [] => [comps]
  | seg :: rest =>
      groupings rest (newComponent comps seg)
      ++ match comps with
         | [] => []
         | _ :: _ => groupings rest (mergeWithPrevious comps seg)
         end
  end.

(** The path of a list of components: each is preceded by a separator. *)
Fixpoint render (comps : list string) : string :=
  match comps with
  | [] => ""
  | c :: comps' => "/" +++ c +++ render comps'
  end.

Definition candidates (segs : list string) : list string :=
  map render (groupings segs []).

(** *** Glob patterns (specification 4.2, step 2b)

    [*] matches any sequence of characters, [?] any single character,
    every other character itself; the whole path has to be matched. *)

Fixpoint globMatch (pattern : string) : string -> bool :=
  match pattern with
  | EmptyString => fun path => String.eqb path EmptyString
  | String p pattern' =>
      if Ascii.eqb p "*" then
        fix anySequence (path : string) : bool :=
          globMatch pattern' path ||
          match path with
          | EmptyString => false
          | String _ path' => anySequence path'
          end
      else if Ascii.eqb p "?" then
        fun path =>
          match path with
          | EmptyString => false
          | String _ path' => globMatch pattern' path'
          end
      else
        fun path =>
          match path with
          | EmptyString => false
          | String c path' => Ascii.eqb c p && globMatch pattern' path'
          end
  end.

(** *** Session identifiers (specification 4.2, step 2c)

    A canonical UUID: five groups of lowercase hexadecimal digits, of
    8, 4, 4, 4 and 12 digits, separated by hyphens. *)

Definition lowerHexDigit (c : ascii) : bool :=
  existsb (Ascii.eqb c)
    ["0"; "1"; "2"; "3"; "4"; "5"; "6"; "7"; "8"; "9";
     "a"; "b"; "c"; "d"; "e"; "f"]%char.

Fixpoint allChars (p : ascii -> bool) (s : string) : bool :=
  match s with
  | EmptyString => true
  | String c s' => p c && allChars p s'
  end.

Definition hexGroup (n : nat) (g : string) : bool :=
  Nat.eqb (String.length g) n && allChars lowerHexDigit g.

Definition isCanonicalUuid (s : string) : bool :=
  match split "-" s with
  | [g1; g2; g3; g4; g5] =>
      hexGroup 8 g1 && hexGroup 4 g2 && hexGroup 4 g3 && hexGroup 4 g4
      && hexGroup 12 g5
  | _ => false
  end.

(** The strings of the shape 8-4-4-4-12, with their groups. *)
Definition grouped (s g1 g2 g3 g4 g5 : string) : Prop :=
  s = g1 +++ String "-" (g2 +++ String "-" (g3 +++ String "-"
        (g4 +++ String "-" g5)))
  /\ hexGroup 8 g1 = true /\ hexGroup 4 g2 = true
  /\ hexGroup 4 g3 = true /\ hexGroup 4 g4 = true
  /\ hexGroup 12 g5 = true.

(** The number of occurrences of a character. *)
Fixpoint countChar (c : ascii) (s : string) : nat :=
  match s with
  | EmptyString => 0
  | String d s' => (if Ascii.eqb d c then 1 else 0) + countChar c s'
  end.

(** The name without its last [n] characters. *)
Definition dropLast (n : nat) (s : string) : string :=
  String.substring 0 (String.length s - n) s.

(** A file name that yields a record: not the reserved index file, with
    the transcript extension, and a canonical UUID before the
    extension. *)
Definition qualifies (fileName : string) : bool :=
  negb (String.eqb fileName "sessions-index.json")
  && endsWith ".jsonl" fileName
  && isCanonicalUuid (dropLast (String.length ".jsonl") fileName).

(** *** Aggregates (specification 3) *)

Definition sumOfSizes (ts : list Scanner.TranscriptFile) : N :=
  fold_right N.add 0%N (map Scanner.fileSize ts).

Definition distinctProjectDirs (ts : list Scanner.TranscriptFile) : nat :=
  List.length (nodup string_dec (map Scanner.projectDir ts)).

(** *** The invariant of the scan loops

    The set of project directories holds, once each, the directories of
    the records pushed so far. *)
Definition consistent (st : Scanner.State) : Prop :=
  NoDup (snd st)
  /\ forall d, In d (snd st) <-> In d (map Scanner.projectDir (fst st)).

End Spec.

(** ** Glob patterns and the expression built from them

    The notions used to compare [matchesPattern] with [Spec.globMatch]. *)

Module Glob.
Import JsString.

(** The characters that the expression syntax gives a meaning to and
    that [matchesPattern] leaves as they are. *)
Definition metachar (c : ascii) : bool :=
  existsb (Ascii.eqb c)
    ["^"; "$"; "\"; "+"; "("; ")"; "["; "]"; "{"; "}"; "|"]%char.

(** A pattern whose only special characters are [.], [*] and [?]. *)
Definition plain (pattern : string) : bool :=
  Spec.allChars (fun c => negb (metachar c)) pattern.

(** A path without line terminators. *)
Definition singleLine (path : string) : bool :=
  Spec.allChars (fun c => negb (RegExp.lineTerminator c)) path.

(** An engine that answers as [RegExp] does on the sources of its
    fragment; the engine of the host is one. *)
Definition conforms (engine : string -> string -> result bool) : Prop :=
  forall (source : string) (r : RegExp.regex) (s : string),
    RegExp.parse source = Some r ->
    engine source s = Return (RegExp.test r s).

(** What the three replacements make of one character of the pattern,
    the tokens of that text, and the item they are read as. *)
Definition translateChar (c : ascii) : string :=
  if Ascii.eqb c "." then "\."
  else if Ascii.eqb c "*" then ".*"
  else if Ascii.eqb c "?" then "."
  else String c "".

Fixpoint translate (pattern : string) : string :=
  match pattern with
  | EmptyString => EmptyString
  | String c pattern' => translateChar c +++ translate pattern'
  end.

Definition globTokens (c : ascii) : list RegExp.token :=
  if Ascii.eqb c "*" then [RegExp.TAtom RegExp.Any; RegExp.TStar]
  else if Ascii.eqb c "?" then [RegExp.TAtom RegExp.Any]
  else [RegExp.TAtom (RegExp.Char c)].

Definition globItem (c : ascii) : RegExp.atom * RegExp.quant :=
  if Ascii.eqb c "*" then (RegExp.Any, RegExp.Star)
  else if Ascii.eqb c "?" then (RegExp.Any, RegExp.Once)
  else (RegExp.Char c, RegExp.Once).

Fixpoint chars (s : string) : list ascii :=
  match s with
  | EmptyString => []
  | String c s' => c :: chars s'
  end.

End Glob.

(** ** Concrete environments, for the examples *)

Module Examples.
Import JsString PathDecoder Scanner.

Definition ENOENT : Error :=
  mkError (Some "ENOENT") "ENOENT: no such file or directory".
Definition EACCES : Error :=
  mkError (Some "EACCES") "EACCES: permission denied".
Definition SyntaxError : Error :=
  mkError None "SyntaxError: Invalid regular expression".

(** A file system given by the table of its paths. *)
Fixpoint lookup {A : Type} (table : list (string * A)) (k : string) : option A :=
  match table with
  | [] => None
  | (k', v) :: table' => if String.eqb k k' then Some v else lookup table' k
  end.

Definition orNotFound {A : Type} (x : option (result A)) : result A :=
  match x with
  | Some r => r
  | None => Throw ENOENT
  end.

Definition existsIn (paths : list string) (p : string) : bool :=
  existsb (String.eqb p) paths.

(** The engine of [RegExp] on the sources of its fragment; on the other
    sources it reports a syntax error (the examples stay inside the
    fragment). *)
Definition fragmentEngine (source s : string) : result bool :=
  match RegExp.parse source with
  | Some r => Return (RegExp.test r s)
  | None => Throw SyntaxError
  end.

(** [path.join] on components that need no normalisation. *)
Definition joinPlain (parts : list string) : string := String.concat "/" parts.

Definition host (dirs : list (string * result (list Dirent)))
    (files : list (string * result (list string)))
    (stats : list (string * result Stats)) : Host :=
  {| homedir := "/home/testuser";
     path_join := joinPlain;
     existsSync := fun _ => false;
     readdirWithFileTypes := fun p => orNotFound (lookup dirs p);
     readdir := fun p => orNotFound (lookup files p);
     stat := fun p => orNotFound (lookup stats p);
     RegExp_test := fragmentEngine |}.

Definition noOptions : ScanOptions :=
  {| projectFilter := None; minDate := None |}.

Definition root : string := "/home/testuser/.claude/projects".

Definition uuid1 : string := "a1b2c3d4-e5f6-7890-abcd-ef1234567890".
Definition uuid2 : string := "b2c3d4e5-f6a7-8901-bcde-f12345678901".

(** Two project directories with one transcript of 1024 bytes each. *)
Definition twoProjects : Host :=
  host
    [ (root, Return [ mkDirent "-home-testuser-project1" true;
                      mkDirent "-home-testuser-project2" true;
                      mkDirent "some-file.txt" false ]) ]
    [ (root +++ "/-home-testuser-project1",
       Return [ uuid1 +++ ".jsonl"; "sessions-index.json"; "not-a-uuid.jsonl" ]);
      (root +++ "/-home-testuser-project2", Return [ uuid2 +++ ".jsonl" ]) ]
    [ (root +++ "/-home-testuser-project1/" +++ uuid1 +++ ".jsonl",
       Return (mkStats 1024 1769212800000));
      (root +++ "/-home-testuser-project2/" +++ uuid2 +++ ".jsonl",
       Return (mkStats 1024 1769212800000)) ].

(** As [twoProjects], but the transcript of the second project is a
    link whose target is gone: [readdir] lists it and [stat] fails with
    [ENOENT]. *)
Definition danglingTranscript : Host :=
  host
    [ (root, Return [ mkDirent "-home-testuser-project1" true;
                      mkDirent "-home-testuser-project2" true ]) ]
    [ (root +++ "/-home-testuser-project1", Return [ uuid1 +++ ".jsonl" ]);
      (root +++ "/-home-testuser-project2", Return [ uuid2 +++ ".jsonl" ]) ]
    [ (root +++ "/-home-testuser-project1/" +++ uuid1 +++ ".jsonl",
       Return (mkStats 1024 1769212800000));
      (root +++ "/-home-testuser-project2/" +++ uuid2 +++ ".jsonl",
       Throw ENOENT) ].

(** The directories [/home/user/my-project] and its ancestors, and
    nothing else. *)
Definition myProject : string -> bool :=
  existsIn ["/"; "/home"; "/home/user"; "/home/user/my-project"].

End Examples.


(** ** Notions for the further properties *)

Module Derived.
Import JsString Scanner.

(** The ways to continue a path over the segments that are left: before
    each segment comes a separator or the marker, the separator first. *)
Fixpoint suffixes (segs : list string) : list string :=
  match segs with
  | [] => [EmptyString]
  | seg :: rest =>
      map (fun t => "/" +++ seg +++ t) (suffixes rest)
      ++ map (fun t => "-" +++ seg +++ t) (suffixes rest)
  end.

(** A pattern without [*] and [?]. *)
Definition noWildcard (pattern : string) : bool :=
  Spec.allChars (fun c => negb (Ascii.eqb c "*" || Ascii.eqb c "?")) pattern.

(** The records of a result that are not older than [bound], with the
    aggregates of those records: their sizes added as the scan adds
    them, and the number of their distinct directories. *)
Definition notBefore (bound : Z) (t : TranscriptFile) : bool :=
  negb (Z.ltb (modifiedTime t) bound).

Definition restrictToDate (bound : Z) (r : ScanResult) : ScanResult :=
  let kept := filter (notBefore bound) (transcripts r) in
  {| transcripts := kept;
     totalSize := fold_left (fun sum t => JsNumber.add sum (fileSize t)) kept 0%N;
     projectCount := Spec.distinctProjectDirs kept |}.

(** Two runs of a loop body that go the same way: both return, in
    related states, or both throw the same error. *)
Definition sameOutcome {S1 S2 : Type} (R : S1 -> S2 -> Prop)
    (a : result S1) (b : result S2) : Prop :=
  match a, b with
  | Return s1, Return s2 => R s1 s2
  | Throw e1, Throw e2 => e1 = e2
  | _, _ => False
  end.

(** The state of the scan with a date bound, beside the state of the
    scan without one. *)
Definition dateRelated (bound : Z) (unbounded bounded : State) : Prop :=
  fst bounded = filter (notBefore bound) (fst unbounded)
  /\ Spec.consistent bounded.

(** The records that a scan which completes pushes for one file, for
    one entry of the projects directory and for the whole listing: a
    call that fails gives no record here (the scan itself does not
    complete then). *)
Definition recordsOfFile (w : Host) (options : ScanOptions)
    (path dir full fileName : string) : list TranscriptFile :=
  if Spec.qualifies fileName then
    match stat w (path_join w [full; fileName]) with
    | Return fileStats =>
        if match minDate options with
           | Some bound => Z.ltb (mtime fileStats) bound
           | None => false
           end
        then []
        else [ {| projectPath := path;
                  projectDir := dir;
                  sessionId := replaceFirst ".jsonl" "" fileName;
                  filePath := path_join w [full; fileName];
                  fileSize := size fileStats;
                  modifiedTime := mtime fileStats |} ]
    | Throw _ => []
    end
  else [].

Definition recordsOfEntry (w : Host) (options : ScanOptions)
    (projectsDir : string) (entry : Dirent) : list TranscriptFile :=
  if isDirectory entry then
    let path := PathDecoder.decodeProjectPath (existsSync w) (name entry) in
    let full := path_join w [projectsDir; name entry] in
    match matchesPattern w path (projectFilter options) with
    | Return true =>
        match readdir w full with
        | Return files =>
            flat_map (recordsOfFile w options path (name entry) full) files
        | Throw _ => []
        end
    | _ => []
    end
  else [].

Definition expectedTranscripts (w : Host) (options : ScanOptions)
    (entries : list Dirent) : list TranscriptFile :=
  flat_map (recordsOfEntry w options (projectsDirOf w)) entries.

(** Project directories that fail in different ways, for the examples:
    the listing of the second one is refused. *)
Definition refusedListing : Host :=
  Examples.host
    [ (Examples.root,
       Return [ mkDirent "-home-testuser-project1" true;
                mkDirent "-home-testuser-project2" true ]) ]
    [ (Examples.root +++ "/-home-testuser-project1",
       Return [ Examples.uuid1 +++ ".jsonl" ]);
      (Examples.root +++ "/-home-testuser-project2", Throw Examples.EACCES) ]
    [ (Examples.root +++ "/-home-testuser-project1/" +++ Examples.uuid1 +++ ".jsonl",
       Return (mkStats 1024 1769212800000)) ].

(** Only plain files in the projects directory. *)
Definition noDirectories : Host :=
  Examples.host
    [ (Examples.root,
       Return [ mkDirent "notes.txt" false; mkDirent "-home-testuser-x" false ]) ]
    [] [].

(** One project with an older and a newer transcript. *)
Definition twoDates : Host :=
  Examples.host
    [ (Examples.root, Return [ mkDirent "-home-testuser-project1" true ]) ]
    [ (Examples.root +++ "/-home-testuser-project1",
       Return [ Examples.uuid1 +++ ".jsonl"; Examples.uuid2 +++ ".jsonl" ]) ]
    [ (Examples.root +++ "/-home-testuser-project1/" +++ Examples.uuid1 +++ ".jsonl",
       Return (mkStats 256 1768867200000));
      (Examples.root +++ "/-home-testuser-project1/" +++ Examples.uuid2 +++ ".jsonl",
       Return (mkStats 512 1769212800000)) ].

(** One project with three transcripts, of 2^53 bytes, one byte and one
    byte. *)
Definition uuid3 : string := "c3d4e5f6-a7b8-9012-cdef-123456789012".

Definition hugeFiles : Host :=
  Examples.host
    [ (Examples.root, Return [ mkDirent "-home-testuser-project1" true ]) ]
    [ (Examples.root +++ "/-home-testuser-project1",
       Return [ Examples.uuid1 +++ ".jsonl"; Examples.uuid2 +++ ".jsonl";
                uuid3 +++ ".jsonl" ]) ]
    [ (Examples.root +++ "/-home-testuser-project1/" +++ Examples.uuid1 +++ ".jsonl",
       Return (mkStats 9007199254740992 1769212800000));
      (Examples.root +++ "/-home-testuser-project1/" +++ Examples.uuid2 +++ ".jsonl",
       Return (mkStats 1 1769212800000));
      (Examples.root +++ "/-home-testuser-project1/" +++ uuid3 +++ ".jsonl",
       Return (mkStats 1 1769212800000)) ].

(** The directories [/a/b-c] and [/a-b/c] both exist, [/a/b/c] does
    not. *)
Definition twoReadings : string -> bool :=
  Examples.existsIn ["/"; "/a"; "/a-b"; "/a/b-c"; "/a-b/c"].

End Derived.

(** * Properties *)

(** ** Strings *)

Module StringFacts.
Import JsString.

Lemma append_assoc (a b c : string) : (a +++ b) +++ c = a +++ b +++ c.
Proof. induction a as [|x a IH]; simpl; [reflexivity | now rewrite IH]. Qed.

Lemma append_empty_r (a : string) : a +++ "" = a.
Proof. induction a as [|x a IH]; simpl; [reflexivity | now rewrite IH]. Qed.

Lemma split_not_nil (c : ascii) (s : string) : split c s <> [].
Proof.
  destruct s as [|d s]; simpl; [discriminate |].
  destruct (Ascii.eqb d c); [discriminate |].
  destruct (split c s); discriminate.
Qed.

Lemma concat_cons (sep x : string) (l : list string) :
  l <> [] -> String.concat sep (x :: l) = x +++ sep +++ String.concat sep l.
Proof. destruct l; [congruence | reflexivity]. Qed.

(** Joining the pieces of a split with the separator gives the string
    back. *)
Lemma join_split (c : ascii) (s : string) :
  join (String c "") (split c s) = s.
Proof.
  unfold join. induction s as [|d s IH]; [reflexivity |].
  simpl split. destruct (Ascii.eqb_spec d c) as [->|Hdc].
  - rewrite concat_cons by apply split_not_nil. rewrite IH. reflexivity.
  - pose proof (split_not_nil c s) as Hne.
    destruct (split c s) as [|h t]; [congruence |].
    destruct t as [|h' t].
    + simpl in *. now rewrite IH.
    + change (String.concat (String c "") (String d h :: h' :: t))
        with (String d (String.concat (String c "") (h :: h' :: t))).
      now rewrite IH.
Qed.

(** Popping the last piece and putting it back after a separator. *)
Lemma join_pop (sep : string) (l : list string) :
  2 <= List.length l ->
  join sep (removelast l) +++ sep +++ last l "" = join sep l.
Proof.
  unfold join. induction l as [|x l IH]; simpl List.length; [lia |].
  intros Hlen. destruct l as [|y l]; [simpl in Hlen; lia |].
  destruct l as [|z l]; [reflexivity |].
  change (removelast (x :: y :: z :: l)) with (x :: removelast (y :: z :: l)).
  change (last (x :: y :: z :: l) "") with (last (y :: z :: l) "").
  rewrite concat_cons.
  2:{ destruct l; simpl; discriminate. }
  rewrite (concat_cons sep x) by discriminate.
  rewrite !append_assoc. rewrite <- IH by (simpl; lia).
  reflexivity.
Qed.

Lemma split_leading_separator (c : ascii) (s : string) :
  2 <= List.length (split c (String c s)).
Proof.
  simpl. rewrite Ascii.eqb_refl. simpl.
  pose proof (split_not_nil c s). destruct (split c s); simpl; [congruence | lia].
Qed.

Lemma orEmpty_Some (s : string) : orEmpty (Some s) = s.
Proof.
  unfold orEmpty, truthy. destruct (String.eqb_spec s ""); simpl; congruence.
Qed.

(** What the merge branch of [generatePaths] computes from a path that
    starts with a separator: the path itself, the marker, the segment. *)
Lemma pop_and_rejoin (currentPath seg : string) :
  join "/" (snd (pop (split "/" (String "/" currentPath))))
    +++ "/" +++ orEmpty (fst (pop (split "/" (String "/" currentPath))))
    +++ "-" +++ seg
  = String "/" currentPath +++ "-" +++ seg.
Proof.
  pose proof (split_leading_separator "/" currentPath) as Hlen.
  pose proof (join_split "/" (String "/" currentPath)) as Hjoin.
  destruct (split "/" (String "/" currentPath)) as [|x l] eqn:E;
    [simpl in Hlen; lia |].
  unfold pop. cbn [fst snd]. rewrite orEmpty_Some.
  rewrite <- Hjoin, <- (join_pop "/" (x :: l) Hlen).
  now rewrite !append_assoc.
Qed.

End StringFacts.

(** ** PathDecoder: the enumeration of the code is the specification's *)

Module DecoderFacts.
Import JsString PathDecoder StringFacts.

Lemma generatePaths_unfold (parts : list string) (index : nat)
    (currentPath : string) (possiblePaths : list string) :
  generatePaths parts index currentPath possiblePaths =
  if Nat.leb (List.length parts) index then possiblePaths ++ [currentPath]
  else
    let possiblePaths :=
      generatePaths parts (index + 1)
        (currentPath +++ "/" +++ nth index parts "") possiblePaths in
    if Nat.ltb 0 index && truthy currentPath then
      generatePaths parts (index + 1)
        (join "/" (snd (pop (split "/" currentPath)))
           +++ "/" +++ orEmpty (fst (pop (split "/" currentPath)))
           +++ "-" +++ nth index parts "")
        possiblePaths
    else possiblePaths.
Proof.
  rewrite generatePaths_equation_1.
  destruct (le_lt_dec (List.length parts) index) as [Hle|Hlt]; simpl.
  - apply Nat.leb_le in Hle. now rewrite Hle.
  - apply Nat.leb_gt in Hlt. rewrite Hlt.
    destruct (Nat.ltb 0 index && truthy currentPath); reflexivity.
Qed.

Lemma render_app (comps : list string) (seg : string) :
  Spec.render (comps ++ [seg]) = Spec.render comps +++ "/" +++ seg.
Proof.
  induction comps as [|c comps IH]; simpl.
  - now rewrite append_empty_r.
  - rewrite IH. now rewrite !append_assoc.
Qed.

Lemma render_newComponent (comps : list string) (seg : string) :
  Spec.render (Spec.newComponent comps seg) = Spec.render comps +++ "/" +++ seg.
Proof. apply render_app. Qed.

Lemma render_mergeWithPrevious (comps : list string) (seg : string) :
  comps <> [] ->
  Spec.render (Spec.mergeWithPrevious comps seg)
  = Spec.render comps +++ "-" +++ seg.
Proof.
  intros Hne. unfold Spec.mergeWithPrevious.
  rewrite (app_removelast_last "" Hne) at 3.
  rewrite !render_app. now rewrite !append_assoc.
Qed.

Lemma render_leading_separator (comps : list string) :
  comps <> [] -> exists rest, Spec.render comps = String "/" rest.
Proof. destruct comps as [|c comps]; [congruence | simpl; eauto]. Qed.

Lemma skipn_nth (parts : list string) (index : nat) :
  index < List.length parts ->
  skipn index parts = nth index parts "" :: skipn (index + 1) parts.
Proof.
  revert index. induction parts as [|p parts IH]; simpl; intros index Hlt; [lia |].
  destruct index as [|index]; [reflexivity |].
  simpl. apply IH. lia.
Qed.

(** [generatePaths] pushes, in order, the paths of the groupings of the
    segments from [index] on, started from the components of
    [currentPath]. *)
Lemma generatePaths_groupings (n : nat) :
  forall (parts : list string) (index : nat) (comps : list string)
         (possiblePaths : list string),
    List.length parts - index = n ->
    index <= List.length parts ->
    (index = 0 <-> comps = []) ->
    generatePaths parts index (Spec.render comps) possiblePaths
    = possiblePaths ++ map Spec.render (Spec.groupings (skipn index parts) comps).
Proof.
  induction n as [|n IH]; intros parts index comps acc Hn Hle Hcomps;
    rewrite generatePaths_unfold.
  - assert (Hge : Nat.leb (List.length parts) index = true)
      by (apply Nat.leb_le; lia).
    rewrite Hge. rewrite skipn_all2 by lia. reflexivity.
  - assert (Hlt : Nat.leb (List.length parts) index = false)
      by (apply Nat.leb_gt; lia).
    rewrite Hlt. cbv zeta.
    rewrite skipn_nth by lia. simpl Spec.groupings.
    set (seg := nth index parts "").
    rewrite <- render_newComponent.
    assert (Hnew : index + 1 = 0 <-> Spec.newComponent comps seg = []).
    { unfold Spec.newComponent. split; [lia |].
      intros H. now apply app_eq_nil in H as [_ H]. }
    rewrite (IH parts (index + 1) _ acc) by (trivial; lia).
    destruct comps as [|c comps].
    + assert (index = 0) as -> by now apply Hcomps.
      simpl. now rewrite app_nil_r.
    + assert (Hpos : index <> 0) by (intros H; apply Hcomps in H; discriminate).
      assert (Nat.ltb 0 index = true) as -> by (apply Nat.ltb_lt; lia).
      destruct (render_leading_separator (c :: comps)) as [rest Hrest];
        [discriminate |].
      rewrite Hrest. unfold truthy at 1. simpl andb.
      rewrite pop_and_rejoin. rewrite <- Hrest.
      rewrite <- render_mergeWithPrevious by discriminate.
      assert (Hmerge : index + 1 = 0 <->
                       Spec.mergeWithPrevious (c :: comps) seg = []).
      { unfold Spec.mergeWithPrevious. split; [lia |].
        intros H. now apply app_eq_nil in H as [_ H]. }
      rewrite (IH parts (index + 1)) by (trivial; lia).
      now rewrite map_app, app_assoc.
Qed.

(** The candidates of the code are those of the specification, in the
    same order. *)
Lemma generatePaths_candidates (segments : list string) :
  generatePaths segments 0 "" [] = Spec.candidates segments.
Proof.
  change "" with (Spec.render []).
  rewrite (generatePaths_groupings (List.length segments - 0) segments 0 [] []);
    [reflexivity | reflexivity | lia | tauto].
Qed.

Lemma decode_unfold (existsSync : string -> bool) (encoded : string) :
  startsWith "-" encoded = true ->
  existsSync (simpleDecode encoded) = false ->
  decodeProjectPath existsSync encoded =
  match find existsSync (Spec.candidates (split "-" (slice 1 encoded))) with
  | Some path => path
  | None => simpleDecode encoded
  end.
Proof.
  intros Hmarker Hsimple. unfold decodeProjectPath.
  rewrite Hmarker, Hsimple. simpl. now rewrite generatePaths_candidates.
Qed.

Lemma find_first {A : Type} (f : A -> bool) (earlier later : list A) (x : A) :
  (forall y, In y earlier -> f y = false) -> f x = true ->
  find f (earlier ++ x :: later) = Some x.
Proof.
  intros Hearlier Hx. induction earlier as [|y earlier IH]; simpl.
  - now rewrite Hx.
  - rewrite (Hearlier y) by now left. apply IH. intros z Hz. apply Hearlier. now right.
Qed.

Lemma find_nowhere {A : Type} (f : A -> bool) (l : list A) :
  (forall y, In y l -> f y = false) -> find f l = None.
Proof.
  induction l as [|y l IH]; simpl; intros H; [reflexivity |].
  rewrite (H y) by now left. apply IH. intros z Hz. apply H. now right.
Qed.

(** Taking every leading segment as a new component is one branch of the
    enumeration. *)
Lemma groupings_new_components (parents segs comps : list string) (g : list string) :
  In g (Spec.groupings segs (comps ++ parents)) ->
  In g (Spec.groupings (parents ++ segs) comps).
Proof.
  revert comps. induction parents as [|p parents IH]; intros comps Hin.
  - now rewrite app_nil_r in Hin.
  - simpl. apply in_or_app. left. apply IH.
    unfold Spec.newComponent. now rewrite <- app_assoc.
Qed.

Lemma hyphenated_last_is_candidate (parents : list string) (a b : string) :
  In (Spec.render (parents ++ [a +++ "-" +++ b]))
     (Spec.candidates (parents ++ [a; b])).
Proof.
  unfold Spec.candidates. apply in_map.
  apply (groupings_new_components parents [a; b] []).
  change ([] ++ parents) with parents.
  assert (Hm : Spec.mergeWithPrevious (Spec.newComponent parents a) b
               = parents ++ [a +++ "-" +++ b]).
  { unfold Spec.mergeWithPrevious, Spec.newComponent.
    now rewrite removelast_last, last_last. }
  cbn [Spec.groupings]. apply in_or_app. left. apply in_or_app. right.
  destruct (Spec.newComponent parents a) as [|x l] eqn:E.
  - unfold Spec.newComponent in E. now apply app_eq_nil in E as [_ E].
  - rewrite Hm. now left.
Qed.

End DecoderFacts.

Import JsString PathDecoder.

(** C9. An encoded name that does not begin with the marker ['-'] is
    returned unchanged, whatever the file system holds:
    [decode(name) = name]. *)
Theorem decode_unmarked_name_unchanged :
  forall (existsSync : string -> bool) (name : string),
    startsWith "-" name = false ->
    decodeProjectPath existsSync name = name.
Proof.
  intros existsSync name Hmarker. unfold decodeProjectPath.
  now rewrite Hmarker.
Qed.

Lemma decode_unmarked_name_unchanged_witness :
  startsWith "-" "relative-path-project" = false
  /\ decodeProjectPath Examples.myProject "relative-path-project"
     = "relative-path-project".
Proof.
  split; [reflexivity |].
  apply (decode_unmarked_name_unchanged Examples.myProject "relative-path-project").
  reflexivity.
Defined.

(** C3. When the simple decode of a marker-prefixed name does not exist,
    the candidates that [decode] tries are the groupings of the segments
    enumerated depth-first, "new component" before "merge with the
    previous component", and the result is the first candidate that
    exists: no candidate before it in that order exists.  In particular,
    when the segments end with [a], [b] and the only candidate that
    exists is the one whose last component is [a-b], that path is the
    result, with [a-b] as a single component. *)
Theorem decode_first_existing_candidate :
  forall (existsSync : string -> bool) (encoded : string),
    startsWith "-" encoded = true ->
    existsSync (simpleDecode encoded) = false ->
    (forall (earlier later : list string) (path : string),
        Spec.candidates (split "-" (slice 1 encoded)) = earlier ++ path :: later ->
        (forall p, In p earlier -> existsSync p = false) ->
        existsSync path = true ->
        decodeProjectPath existsSync encoded = path)
    /\
    (forall (parents : list string) (a b : string),
        split "-" (slice 1 encoded) = parents ++ [a; b] ->
        existsSync (Spec.render (parents ++ [a +++ "-" +++ b])) = true ->
        (forall p, In p (Spec.candidates (parents ++ [a; b])) ->
                   p <> Spec.render (parents ++ [a +++ "-" +++ b]) ->
                   existsSync p = false) ->
        decodeProjectPath existsSync encoded
        = Spec.render (parents ++ [a +++ "-" +++ b])).
Proof.
  intros existsSync encoded Hmarker Hsimple.
  rewrite (DecoderFacts.decode_unfold existsSync encoded Hmarker Hsimple).
  split.
  - intros earlier later path Hsplit Hearlier Hpath.
    rewrite Hsplit. now rewrite (DecoderFacts.find_first existsSync earlier later path).
  - intros parents a b Hsegments Hwhole Hothers. rewrite Hsegments.
    pose proof (DecoderFacts.hyphenated_last_is_candidate parents a b) as Hin.
    destruct (find existsSync (Spec.candidates (parents ++ [a; b]))) as [p|] eqn:Hfind.
    + apply find_some in Hfind as [Hp Hex].
      destruct (string_dec p (Spec.render (parents ++ [a +++ "-" +++ b])))
        as [Heq|Hneq]; [exact Heq |].
      rewrite (Hothers p Hp Hneq) in Hex. discriminate.
    + apply (find_none _ _ Hfind) in Hin. congruence.
Qed.

Lemma decode_first_existing_candidate_witness :
  decodeProjectPath Examples.myProject "-home-user-my-project"
  = "/home/user/my-project".
Proof.
  apply (proj2 (decode_first_existing_candidate Examples.myProject
                  "-home-user-my-project" eq_refl eq_refl)
           ["home"; "user"] "my" "project").
  - reflexivity.
  - reflexivity.
  - intros p Hin Hneq. simpl in Hin.
    repeat (destruct Hin as [<-|Hin]; [first [reflexivity | now elim Hneq] |]).
    destruct Hin.
Defined.

(** C4. When no candidate of a marker-prefixed name exists on the file
    system, [decode] returns the simple decode: the name without its
    leading marker, every other marker replaced by the separator, after
    the root separator.  With no matching entry,
    [decode("-home-testuser-project1") = "/home/testuser/project1"]. *)
Theorem decode_falls_back_to_simple_decode :
  forall (existsSync : string -> bool) (encoded : string),
    startsWith "-" encoded = true ->
    (forall p, In p (Spec.candidates (split "-" (slice 1 encoded))) ->
               existsSync p = false) ->
    decodeProjectPath existsSync encoded
    = "/" +++ replaceAll "-" "/" (slice 1 encoded).
Proof.
  intros existsSync encoded Hmarker Hnone.
  destruct (existsSync (simpleDecode encoded)) eqn:Hsimple.
  - unfold decodeProjectPath. rewrite Hmarker, Hsimple. reflexivity.
  - rewrite (DecoderFacts.decode_unfold existsSync encoded Hmarker Hsimple).
    now rewrite (DecoderFacts.find_nowhere existsSync _ Hnone).
Qed.

Lemma decode_falls_back_to_simple_decode_witness :
  decodeProjectPath (Examples.existsIn ["/"; "/home"]) "-home-testuser-project1"
  = "/home/testuser/project1".
Proof.
  apply (decode_falls_back_to_simple_decode
           (Examples.existsIn ["/"; "/home"]) "-home-testuser-project1").
  - reflexivity.
  - intros p Hin. simpl in Hin.
    repeat (destruct Hin as [<-|Hin]; [reflexivity |]).
    destruct Hin.
Defined.

(** ** TranscriptScanner: the loops and the [catch] clause *)

Module ScannerFacts.
Import JsString PathDecoder Scanner.

(** The [catch] clause: what the scan answers when the [try] block
    throws. *)
Lemma scan_catch (w : Host) (options : ScanOptions) (error : Error) :
  tryBlock w options (projectsDirOf w) ([], empty_set string) = Throw error ->
  scanTranscripts w options
  = if notFound error then Return emptyResult else Throw error.
Proof. intros H. unfold scanTranscripts. now rewrite H. Qed.

Lemma scan_return (w : Host) (options : ScanOptions) (st : State) :
  tryBlock w options (projectsDirOf w) ([], empty_set string) = Return st ->
  scanTranscripts w options
  = Return {| transcripts := fst st;
              totalSize :=
                fold_left (fun sum t => JsNumber.add sum (fileSize t)) (fst st) 0%N;
              projectCount := List.length (snd st) |}.
Proof.
  intros H. unfold scanTranscripts. rewrite H.
  now destruct st.
Qed.

Lemma forOf_invariant {A S : Type} (P : S -> Prop) (body : A -> S -> result S)
    (xs : list A) :
  (forall x s s', P s -> body x s = Return s' -> P s') ->
  forall st st', P st -> forOf xs body st = Return st' -> P st'.
Proof.
  intros Hbody. induction xs as [|x xs IH]; simpl; intros st st' HP Hrun.
  - now inversion Hrun; subst.
  - destruct (body x st) as [s1|e] eqn:Hx; simpl in Hrun; [|discriminate].
    eauto.
Qed.

Lemma forOf_ext {A S : Type} (body body' : A -> S -> result S) (xs : list A) :
  (forall x s, body x s = body' x s) ->
  forall st, forOf xs body st = forOf xs body' st.
Proof.
  intros Hext. induction xs as [|x xs IH]; simpl; intros st; [reflexivity |].
  rewrite Hext. destruct (body' x st); simpl; auto.
Qed.

Lemma consistent_initial : Spec.consistent ([], empty_set string).
Proof. split; [constructor | simpl; tauto]. Qed.

Lemma scanFile_consistent (w : Host) (options : ScanOptions)
    (path dir full fileName : string) (st st' : State) :
  Spec.consistent st ->
  scanFile w options path dir full fileName st = Return st' ->
  Spec.consistent st'.
Proof.
  intros [Hnodup Hsame] Hrun. unfold scanFile in Hrun.
  destruct (_ || _); [now inversion Hrun; subst |].
  destruct (negb _); [now inversion Hrun; subst |].
  destruct (stat w _) as [stats|e]; simpl in Hrun; [|discriminate].
  destruct (match minDate options with Some _ => _ | None => _ end);
    inversion Hrun; subst; [now split |].
  split; simpl.
  - now apply set_add_nodup.
  - intros d. rewrite set_add_iff, map_app, in_app_iff, Hsame. simpl.
    intuition congruence.
Qed.

Lemma scanEntry_consistent (w : Host) (options : ScanOptions)
    (projectsDir : string) (entry : Dirent) (st st' : State) :
  Spec.consistent st ->
  scanEntry w options projectsDir entry st = Return st' ->
  Spec.consistent st'.
Proof.
  intros Hst Hrun. unfold scanEntry in Hrun.
  destruct (negb (isDirectory entry)); [now inversion Hrun; subst |].
  destruct (matchesPattern w _ _) as [matched|e]; simpl in Hrun; [|discriminate].
  destruct matched; simpl in Hrun; [|now inversion Hrun; subst].
  destruct (readdir w _) as [files|e]; simpl in Hrun; [|discriminate].
  revert Hst Hrun. apply forOf_invariant.
  intros fileName s s'. apply scanFile_consistent.
Qed.

Lemma tryBlock_consistent (w : Host) (options : ScanOptions)
    (projectsDir : string) (st : State) :
  tryBlock w options projectsDir ([], empty_set string) = Return st ->
  Spec.consistent st.
Proof.
  unfold tryBlock. destruct (readdirWithFileTypes w projectsDir) as [entries|e];
    simpl; [|discriminate].
  apply forOf_invariant; [|apply consistent_initial].
  intros entry s s'. apply scanEntry_consistent.
Qed.

Lemma same_elements_same_length {A : Type} (l l' : list A) :
  NoDup l -> NoDup l' -> (forall x, In x l <-> In x l') ->
  List.length l = List.length l'.
Proof.
  intros Hl Hl' Hsame. apply Nat.le_antisymm; apply NoDup_incl_length; trivial;
    intros x Hx; now apply Hsame.
Qed.

Lemma consistent_count (st : State) :
  Spec.consistent st -> List.length (snd st) = Spec.distinctProjectDirs (fst st).
Proof.
  intros [Hnodup Hsame]. unfold Spec.distinctProjectDirs.
  apply same_elements_same_length; trivial.
  - apply NoDup_nodup.
  - intros d. now rewrite nodup_In.
Qed.

Lemma roundToDouble_exact (n : N) :
  (n < 2 ^ 53)%N -> JsNumber.roundToDouble n = n.
Proof.
  intros H. unfold JsNumber.roundToDouble. apply N.ltb_lt in H. now rewrite H.
Qed.

(** Below 2^53 the additions of the [reduce] are exact. *)
Lemma reduce_sum (ts : list TranscriptFile) (start : N) :
  (start + Spec.sumOfSizes ts < 2 ^ 53)%N ->
  fold_left (fun sum t => JsNumber.add sum (fileSize t)) ts start
  = (start + Spec.sumOfSizes ts)%N.
Proof.
  revert start. unfold Spec.sumOfSizes.
  induction ts as [|t ts IH]; intros start Hbound; cbn [map fold_right fold_left] in *.
  - now rewrite N.add_0_r.
  - unfold JsNumber.add at 2. rewrite roundToDouble_exact by lia.
    rewrite IH by lia. lia.
Qed.

End ScannerFacts.

Import Scanner.

(** C8. When listing the projects directory fails because it does not
    exist ([ENOENT]), the scan returns exactly the empty result and
    raises nothing; when that listing fails for any other reason, the
    scan fails with the error and produces no result. *)
Theorem scan_root_listing_failure :
  forall (w : Host) (options : ScanOptions) (error : Error),
    readdirWithFileTypes w (path_join w [homedir w; ".claude"; "projects"])
    = Throw error ->
    (code error = Some "ENOENT" ->
     scanTranscripts w options
     = Return {| transcripts := []; totalSize := 0; projectCount := 0 |})
    /\ (code error <> Some "ENOENT" ->
        scanTranscripts w options = Throw error).
Proof.
  intros w options error Hlist.
  assert (Htry : tryBlock w options (projectsDirOf w)
                   ([], empty_set string) = Throw error).
  { unfold tryBlock, projectsDirOf. now rewrite Hlist. }
  rewrite (ScannerFacts.scan_catch w options error Htry).
  unfold notFound. split; intros Hcode.
  - now rewrite Hcode.
  - destruct (code error) as [c|]; [|reflexivity].
    destruct (String.eqb_spec c "ENOENT"); [congruence | reflexivity].
Qed.

Lemma scan_root_listing_failure_witness :
  scanTranscripts (Examples.host [] [] []) Examples.noOptions = Return emptyResult
  /\ scanTranscripts
       (Examples.host [(Examples.root, Throw Examples.EACCES)] [] [])
       Examples.noOptions
     = Throw Examples.EACCES.
Proof.
  split.
  - apply (scan_root_listing_failure (Examples.host [] [] []) Examples.noOptions
             Examples.ENOENT); reflexivity.
  - apply (scan_root_listing_failure
             (Examples.host [(Examples.root, Throw Examples.EACCES)] [] [])
             Examples.noOptions Examples.EACCES); [reflexivity | discriminate].
Defined.

(** C2, as the code has it.  Every result that the scan returns has
    [projectCount] equal to the number of distinct [projectDir] values
    among its transcripts, and, when the sum of [fileSize] over its
    transcripts is below 2^53, [totalSize] equal to that sum: up to
    there the additions of the [reduce] are exact. *)
Theorem scan_result_aggregates :
  forall (w : Host) (options : ScanOptions) (r : ScanResult),
    scanTranscripts w options = Return r ->
    ((Spec.sumOfSizes (transcripts r) < 2 ^ 53)%N ->
     totalSize r = Spec.sumOfSizes (transcripts r))
    /\ projectCount r = Spec.distinctProjectDirs (transcripts r).
Proof.
  intros w options r Hscan.
  destruct (tryBlock w options (projectsDirOf w) ([], empty_set string))
    as [st|error] eqn:Htry.
  - rewrite (ScannerFacts.scan_return w options st Htry) in Hscan.
    injection Hscan as <-. cbn [transcripts totalSize projectCount].
    split.
    + intros Hbound. now rewrite ScannerFacts.reduce_sum.
    + apply ScannerFacts.consistent_count.
      now apply (ScannerFacts.tryBlock_consistent w options (projectsDirOf w) st).
  - rewrite (ScannerFacts.scan_catch w options error Htry) in Hscan.
    destruct (notFound error); [|discriminate]. injection Hscan as <-.
    split; reflexivity.
Qed.

Lemma scan_result_aggregates_witness :
  exists r, scanTranscripts Examples.twoProjects Examples.noOptions = Return r
            /\ List.length (transcripts r) = 2
            /\ totalSize r = 2048%N
            /\ projectCount r = 2.
Proof.
  eexists. split; [reflexivity |].
  split; [reflexivity |].
  destruct (scan_result_aggregates Examples.twoProjects Examples.noOptions _ eq_refl)
    as [Hsize Hcount].
  split; [exact (Hsize eq_refl) | exact Hcount].
Defined.

(** The claim C2 as it is written fails from 2^53 on: with transcripts
    of 2^53 bytes, one byte and one byte, each addition of one byte is
    rounded away and [totalSize] is 2^53, two less than the sum. *)
Lemma scan_result_aggregates_counterexample :
  exists r, scanTranscripts Derived.hugeFiles Examples.noOptions = Return r
            /\ map fileSize (transcripts r) = [9007199254740992; 1; 1]%N
            /\ totalSize r = 9007199254740992%N
            /\ Spec.sumOfSizes (transcripts r) = 9007199254740994%N.
Proof. eexists. repeat split; reflexivity. Qed.

(** ** Session identifiers: [UUID_REGEX] and the file name checks *)

Module UuidFacts.
Import JsString Scanner StringFacts.

Lemma hexClass_lowerHexDigit (c : ascii) :
  RegExp.matchesAtom hexClass c = Spec.lowerHexDigit c.
Proof.
  destruct c as [b0 b1 b2 b3 b4 b5 b6 b7].
  destruct b0, b1, b2, b3, b4, b5, b6, b7; reflexivity.
Qed.

Lemma lowerHexDigit_not_marker (c : ascii) :
  Spec.lowerHexDigit c = true -> Ascii.eqb c "-" = false.
Proof.
  intros H. destruct (Ascii.eqb_spec c "-") as [->|]; [discriminate | reflexivity].
Qed.

Lemma lowerHexDigit_not_dot (c : ascii) :
  Spec.lowerHexDigit c = true -> Ascii.eqb c "." = false.
Proof.
  intros H. destruct (Ascii.eqb_spec c ".") as [->|]; [discriminate | reflexivity].
Qed.

Lemma exactly_hex_intro (n : nat) (k : string -> bool) (g rest : string) :
  Spec.hexGroup n g = true ->
  RegExp.exactly hexClass n k (g +++ rest) = k rest.
Proof.
  unfold Spec.hexGroup. revert g.
  induction n as [|n IH]; intros [|c g] H;
    cbn [String.length Nat.eqb Spec.allChars andb] in H; try discriminate.
  - reflexivity.
  - apply andb_prop in H as [Hlen Hall]. apply andb_prop in Hall as [Hc Hall].
    cbn [String.append RegExp.exactly].
    rewrite hexClass_lowerHexDigit, Hc. cbn [andb]. apply IH.
    now rewrite Hlen, Hall.
Qed.

Lemma exactly_hex_elim (n : nat) (k : string -> bool) (s : string) :
  RegExp.exactly hexClass n k s = true ->
  exists g rest, s = g +++ rest /\ Spec.hexGroup n g = true /\ k rest = true.
Proof.
  revert s. induction n as [|n IH]; intros s H; cbn [RegExp.exactly] in H.
  - exists "", s. auto.
  - destruct s as [|c s]; [discriminate |].
    apply andb_prop in H as [Hc H]. rewrite hexClass_lowerHexDigit in Hc.
    destruct (IH s H) as (g & rest & -> & Hg & Hk).
    exists (String c g), rest. repeat split; trivial.
    unfold Spec.hexGroup in *. simpl. apply andb_prop in Hg as [Hlen Hall].
    now rewrite Hlen, Hc, Hall.
Qed.

Lemma once_marker_intro (k : string -> bool) (rest : string) :
  RegExp.exactly (RegExp.Char "-") 1 k (String "-" rest) = k rest.
Proof. reflexivity. Qed.

Lemma once_marker_elim (k : string -> bool) (s : string) :
  RegExp.exactly (RegExp.Char "-") 1 k s = true ->
  exists rest, s = String "-" rest /\ k rest = true.
Proof.
  destruct s as [|c s]; simpl; [discriminate |]. intros H.
  apply andb_prop in H as [Hc H]. apply Ascii.eqb_eq in Hc as ->. eauto.
Qed.

Lemma uuid_regex_grouped (s : string) :
  RegExp.test UUID_REGEX s = true <->
  exists g1 g2 g3 g4 g5, Spec.grouped s g1 g2 g3 g4 g5.
Proof.
  unfold RegExp.test, UUID_REGEX. cbn [RegExp.matchItems]. split.
  - intros H.
    apply exactly_hex_elim in H as (g1 & r1 & -> & H1 & H).
    apply once_marker_elim in H as (r1' & -> & H).
    apply exactly_hex_elim in H as (g2 & r2 & -> & H2 & H).
    apply once_marker_elim in H as (r2' & -> & H).
    apply exactly_hex_elim in H as (g3 & r3 & -> & H3 & H).
    apply once_marker_elim in H as (r3' & -> & H).
    apply exactly_hex_elim in H as (g4 & r4 & -> & H4 & H).
    apply once_marker_elim in H as (r4' & -> & H).
    apply exactly_hex_elim in H as (g5 & r5 & -> & H5 & H).
    apply String.eqb_eq in H as ->. rewrite append_empty_r.
    exists g1, g2, g3, g4, g5. repeat split; trivial.
  - intros (g1 & g2 & g3 & g4 & g5 & -> & H1 & H2 & H3 & H4 & H5).
    rewrite (exactly_hex_intro 8 _ g1 _ H1), once_marker_intro.
    rewrite (exactly_hex_intro 4 _ g2 _ H2), once_marker_intro.
    rewrite (exactly_hex_intro 4 _ g3 _ H3), once_marker_intro.
    rewrite (exactly_hex_intro 4 _ g4 _ H4), once_marker_intro.
    rewrite <- (append_empty_r g5).
    now rewrite (exactly_hex_intro 12 _ g5 _ H5).
Qed.

Lemma hexGroup_allChars (n : nat) (g : string) :
  Spec.hexGroup n g = true -> Spec.allChars Spec.lowerHexDigit g = true.
Proof. unfold Spec.hexGroup. intros H. now apply andb_prop in H. Qed.

Lemma split_group (g rest : string) :
  Spec.allChars Spec.lowerHexDigit g = true ->
  split "-" (g +++ String "-" rest) = g :: split "-" rest.
Proof.
  induction g as [|c g IH]; intros H; [reflexivity |].
  simpl in H. apply andb_prop in H as [Hc H].
  cbn [String.append split]. rewrite (lowerHexDigit_not_marker c Hc).
  now rewrite (IH H).
Qed.

Lemma split_last_group (g : string) :
  Spec.allChars Spec.lowerHexDigit g = true -> split "-" g = [g].
Proof.
  induction g as [|c g IH]; intros H; [reflexivity |].
  simpl in H. apply andb_prop in H as [Hc H].
  cbn [split]. rewrite (lowerHexDigit_not_marker c Hc).
  now rewrite (IH H).
Qed.

Lemma canonical_grouped (s : string) :
  Spec.isCanonicalUuid s = true <->
  exists g1 g2 g3 g4 g5, Spec.grouped s g1 g2 g3 g4 g5.
Proof.
  unfold Spec.isCanonicalUuid. split.
  - intros H. pose proof (join_split "-" s) as Hjoin.
    destruct (split "-" s) as [|g1 [|g2 [|g3 [|g4 [|g5 [|g6 l]]]]]];
      try discriminate.
    apply andb_prop in H as [H H5]. apply andb_prop in H as [H H4].
    apply andb_prop in H as [H H3]. apply andb_prop in H as [H1 H2].
    exists g1, g2, g3, g4, g5. repeat split; trivial.
    now rewrite <- Hjoin.
  - intros (g1 & g2 & g3 & g4 & g5 & -> & H1 & H2 & H3 & H4 & H5).
    rewrite !split_group, split_last_group by eauto using hexGroup_allChars.
    now rewrite H1, H2, H3, H4, H5.
Qed.

(** [UUID_REGEX] accepts exactly the canonical UUIDs. *)
Lemma uuid_regex_canonical (s : string) :
  RegExp.test UUID_REGEX s = Spec.isCanonicalUuid s.
Proof.
  destruct (Spec.isCanonicalUuid s) eqn:Hspec.
  - now apply uuid_regex_grouped, canonical_grouped.
  - destruct (RegExp.test UUID_REGEX s) eqn:Hre; [|reflexivity].
    apply uuid_regex_grouped, canonical_grouped in Hre. congruence.
Qed.

End UuidFacts.

Module FileNameFacts.
Import JsString Scanner StringFacts UuidFacts.

Lemma prefix_decompose (p s : string) :
  String.prefix p s = true -> s = p +++ slice (String.length p) s.
Proof.
  revert s. induction p as [|a p IH]; intros s H; [reflexivity |].
  destruct s as [|b s]; simpl in H; [discriminate |].
  destruct (ascii_dec a b) as [->|]; [|discriminate].
  simpl. f_equal. now apply IH.
Qed.

Lemma substring_slice (k : nat) (s : string) :
  k <= String.length s -> String.substring 0 k s +++ slice k s = s.
Proof.
  revert s. induction k as [|k IH]; intros s Hk.
  - destruct s; reflexivity.
  - destruct s as [|c s]; simpl in Hk; [lia |].
    simpl. f_equal. apply IH. lia.
Qed.

Lemma endsWith_decompose (p s : string) :
  endsWith p s = true -> s = Spec.dropLast (String.length p) s +++ p.
Proof.
  unfold endsWith, Spec.dropLast. intros H. apply andb_prop in H as [Hlen Hp].
  apply String.eqb_eq in Hp.
  pose proof (substring_slice (String.length s - String.length p) s) as Hs.
  rewrite Hp in Hs. symmetry. apply Hs. lia.
Qed.

Lemma countChar_append (c : ascii) (a b : string) :
  Spec.countChar c (a +++ b) = Spec.countChar c a + Spec.countChar c b.
Proof. induction a as [|d a IH]; simpl; [reflexivity | rewrite IH; lia]. Qed.

Lemma replaceFirst_unfold (pat by_ s : string) :
  replaceFirst pat by_ s =
  if String.prefix pat s then by_ +++ slice (String.length pat) s
  else match s with
       | EmptyString => EmptyString
       | String d s' => String d (replaceFirst pat by_ s')
       end.
Proof. destruct s; reflexivity. Qed.

(** Removing the first [".jsonl"] removes one dot at most. *)
Lemma countChar_replaceFirst (s : string) :
  Spec.countChar "." s <= S (Spec.countChar "." (replaceFirst ".jsonl" "" s)).
Proof.
  induction s as [|d s IH]; [simpl; lia |].
  rewrite replaceFirst_unfold.
  destruct (String.prefix ".jsonl" (String d s)) eqn:Hp.
  - rewrite (prefix_decompose _ _ Hp) at 1. rewrite countChar_append.
    cbn [String.append]. simpl Spec.countChar at 1. lia.
  - cbn [Spec.countChar]. lia.
Qed.

(** When the stem has no dot, the first [".jsonl"] is the extension. *)
Lemma replaceFirst_extension (stem : string) :
  Spec.countChar "." stem = 0 ->
  replaceFirst ".jsonl" "" (stem +++ ".jsonl") = stem.
Proof.
  induction stem as [|c stem IH]; intros H; [reflexivity |].
  cbn [Spec.countChar] in H.
  destruct (Ascii.eqb_spec c ".") as [->|Hc]; [lia |].
  rewrite replaceFirst_unfold. cbn [String.append String.prefix].
  destruct (ascii_dec "." c) as [<-|_]; [congruence |].
  f_equal. apply IH. lia.
Qed.

Lemma hex_group_no_dot (g : string) :
  Spec.allChars Spec.lowerHexDigit g = true -> Spec.countChar "." g = 0.
Proof.
  induction g as [|c g IH]; intros H; [reflexivity |].
  simpl in H. apply andb_prop in H as [Hc H].
  cbn [Spec.countChar]. rewrite (lowerHexDigit_not_dot c Hc). now rewrite IH.
Qed.

Lemma canonical_no_dot (s : string) :
  Spec.isCanonicalUuid s = true -> Spec.countChar "." s = 0.
Proof.
  intros H. apply canonical_grouped in H
    as (g1 & g2 & g3 & g4 & g5 & -> & H1 & H2 & H3 & H4 & H5).
  repeat (rewrite countChar_append; cbn [Spec.countChar]).
  rewrite !hex_group_no_dot by eauto using hexGroup_allChars.
  reflexivity.
Qed.

(** On a name with the extension, removing the first [".jsonl"] and
    removing the extension give the same answer to the UUID test. *)
Lemma session_id_checked (fileName : string) :
  endsWith ".jsonl" fileName = true ->
  Spec.isCanonicalUuid (replaceFirst ".jsonl" "" fileName)
  = Spec.isCanonicalUuid (Spec.dropLast (String.length ".jsonl") fileName).
Proof.
  intros Hext. apply endsWith_decompose in Hext.
  set (stem := Spec.dropLast (String.length ".jsonl") fileName) in *.
  rewrite Hext.
  destruct (Nat.eq_dec (Spec.countChar "." stem) 0) as [Hnone|Hsome].
  - now rewrite replaceFirst_extension.
  - assert (Hstem : Spec.isCanonicalUuid stem = false).
    { destruct (Spec.isCanonicalUuid stem) eqn:E; [|reflexivity].
      apply canonical_no_dot in E. congruence. }
    rewrite Hstem.
    destruct (Spec.isCanonicalUuid (replaceFirst ".jsonl" "" (stem +++ ".jsonl")))
      eqn:E; [|reflexivity].
    apply canonical_no_dot in E.
    pose proof (countChar_replaceFirst (stem +++ ".jsonl")) as Hcount.
    rewrite countChar_append in Hcount. simpl Spec.countChar at 2 in Hcount.
    lia.
Qed.

(** The two tests of the loop body together are the specification's
    [qualifies]. *)
Lemma qualifies_code (fileName : string) :
  Spec.qualifies fileName
  = negb (String.eqb fileName "sessions-index.json"
          || negb (endsWith ".jsonl" fileName))
    && RegExp.test UUID_REGEX (replaceFirst ".jsonl" "" fileName).
Proof.
  unfold Spec.qualifies. rewrite uuid_regex_canonical.
  destruct (String.eqb fileName "sessions-index.json"); [reflexivity |].
  destruct (endsWith ".jsonl" fileName) eqn:Hext; [|reflexivity].
  now rewrite session_id_checked.
Qed.

Lemma scanFile_skipped (w : Host) (options : ScanOptions)
    (path dir full fileName : string) (st : State) :
  Spec.qualifies fileName = false ->
  scanFile w options path dir full fileName st = Return st.
Proof.
  rewrite qualifies_code. unfold scanFile.
  destruct (String.eqb fileName "sessions-index.json"
            || negb (endsWith ".jsonl" fileName));
    cbn [negb andb]; intros H; [reflexivity | now rewrite H].
Qed.

Lemma scanFile_qualified (w : Host) (options : ScanOptions)
    (path dir full fileName : string) (st : State) :
  Spec.qualifies fileName = true ->
  scanFile w options path dir full fileName st =
  (fileStats <- stat w (path_join w [full; fileName]) ;;
   if match minDate options with
      | Some minDate => Z.ltb (mtime fileStats) minDate
      | None => false
      end
   then Return st
   else Return
          (fst st ++ [ {| projectPath := path;
                          projectDir := dir;
                          sessionId := replaceFirst ".jsonl" "" fileName;
                          filePath := path_join w [full; fileName];
                          fileSize := size fileStats;
                          modifiedTime := mtime fileStats |} ],
           set_add string_dec dir (snd st))).
Proof.
  rewrite qualifies_code. unfold scanFile.
  destruct (String.eqb fileName "sessions-index.json"
            || negb (endsWith ".jsonl" fileName));
    cbn [negb andb]; intros H; [discriminate | now rewrite H].
Qed.

End FileNameFacts.

(** C5. A file of a retained project directory yields a record only if
    its name is not ["sessions-index.json"], ends with [".jsonl"] and,
    without that extension, is a canonical UUID (lowercase hexadecimal
    digits grouped 8-4-4-4-12).  Every other file name is skipped: the
    loop state is unchanged and nothing is thrown, whatever [stat] would
    answer. *)
Theorem scanFile_only_qualifying_names :
  forall (w : Host) (options : ScanOptions)
         (path dir full fileName : string) (st : State),
    (Spec.qualifies fileName = false ->
     scanFile w options path dir full fileName st = Return st)
    /\ (forall st', scanFile w options path dir full fileName st = Return st' ->
                    st' <> st ->
                    Spec.qualifies fileName = true).
Proof.
  intros w options path dir full fileName st. split.
  - apply FileNameFacts.scanFile_skipped.
  - intros st' Hrun Hchanged.
    destruct (Spec.qualifies fileName) eqn:Hq; [reflexivity |].
    rewrite (FileNameFacts.scanFile_skipped w options path dir full fileName st Hq)
      in Hrun.
    congruence.
Qed.

Lemma scanFile_only_qualifying_names_witness :
  scanFile Examples.twoProjects Examples.noOptions "/p" "-p" "/r/-p"
    "a1b2c3d4-e5f6-7890-abcd-ef123456789.jsonl" ([], empty_set string)
  = Return ([], empty_set string).
Proof.
  apply (proj1 (scanFile_only_qualifying_names Examples.twoProjects
                  Examples.noOptions "/p" "-p" "/r/-p"
                  "a1b2c3d4-e5f6-7890-abcd-ef123456789.jsonl"
                  ([], empty_set string))).
  reflexivity.
Defined.



(** ** The project filter: the expression built from a glob pattern *)

Module GlobFacts.
Import JsString Scanner StringFacts Glob.

Lemma replaceAll_append (c : ascii) (by_ a b : string) :
  replaceAll c by_ (a +++ b) = replaceAll c by_ a +++ replaceAll c by_ b.
Proof.
  induction a as [|d a IH]; [reflexivity |].
  cbn [String.append replaceAll]. rewrite IH.
  destruct (Ascii.eqb d c); [now rewrite append_assoc | reflexivity].
Qed.

(** The three replacements, in the order of the source, translate the
    pattern character by character. *)
Lemma replacements_translate (pattern : string) :
  replaceAll "?" "." (replaceAll "*" ".*" (replaceAll "." "\." pattern))
  = translate pattern.
Proof.
  induction pattern as [|c pattern IH]; [reflexivity |].
  cbn [replaceAll translate]. unfold translateChar.
  destruct (Ascii.eqb_spec c ".") as [->|Hdot].
  - rewrite !replaceAll_append, IH. reflexivity.
  - cbn [replaceAll]. destruct (Ascii.eqb_spec c "*") as [->|Hstar].
    + rewrite !replaceAll_append, IH. reflexivity.
    + cbn [replaceAll]. destruct (Ascii.eqb_spec c "?") as [->|Hq].
      * now rewrite IH.
      * now rewrite IH.
Qed.

Lemma tokens_translateChar (c : ascii) (rest : string) :
  metachar c = false ->
  RegExp.tokens (translateChar c +++ rest)
  = (if Ascii.eqb c "." then [RegExp.TAtom (RegExp.Char ".")] else globTokens c)
    ++ RegExp.tokens rest.
Proof.
  destruct c as [b0 b1 b2 b3 b4 b5 b6 b7].
  destruct b0, b1, b2, b3, b4, b5, b6, b7; intros H;
    first [discriminate H | reflexivity].
Qed.

Lemma tokens_translate (pattern : string) :
  plain pattern = true ->
  RegExp.tokens (translate pattern +++ "$")
  = flat_map globTokens (chars pattern) ++ [RegExp.TDollar].
Proof.
  unfold plain. induction pattern as [|c pattern IH]; intros H; [reflexivity |].
  cbn [Spec.allChars] in H. apply andb_prop in H as [Hc H].
  apply negb_true_iff in Hc.
  cbn [translate chars flat_map]. rewrite append_assoc.
  rewrite (tokens_translateChar c _ Hc), (IH H).
  destruct (Ascii.eqb_spec c ".") as [->|_]; now rewrite <- app_assoc.
Qed.

Lemma tokens_head (cs : list ascii) :
  flat_map globTokens cs ++ [RegExp.TDollar] = [RegExp.TDollar]
  \/ exists a ts, flat_map globTokens cs ++ [RegExp.TDollar] = RegExp.TAtom a :: ts.
Proof.
  destruct cs as [|c cs]; [now left |]. right.
  cbn [flat_map]. unfold globTokens.
  destruct (Ascii.eqb c "*"); [|destruct (Ascii.eqb c "?")]; simpl; eauto.
Qed.

Lemma parseItems_atom (a : RegExp.atom) (cs : list ascii) :
  RegExp.parseItems (RegExp.TAtom a :: flat_map globTokens cs ++ [RegExp.TDollar])
  = option_map (cons (a, RegExp.Once))
      (RegExp.parseItems (flat_map globTokens cs ++ [RegExp.TDollar])).
Proof.
  destruct (tokens_head cs) as [->|(a' & ts & ->)]; reflexivity.
Qed.

Lemma parseItems_star (a : RegExp.atom) (ts : list RegExp.token) :
  RegExp.parseItems (RegExp.TAtom a :: RegExp.TStar :: ts)
  = option_map (cons (a, RegExp.Star)) (RegExp.parseItems ts).
Proof. reflexivity. Qed.

Lemma parseItems_glob (cs : list ascii) :
  RegExp.parseItems (flat_map globTokens cs ++ [RegExp.TDollar])
  = Some (map globItem cs).
Proof.
  induction cs as [|c cs IH]; [reflexivity |].
  cbn [flat_map map]. unfold globTokens at 1, globItem at 1.
  destruct (Ascii.eqb c "*").
  - cbn [app]. rewrite parseItems_star, IH. reflexivity.
  - destruct (Ascii.eqb c "?"); cbn [app]; rewrite parseItems_atom, IH; reflexivity.
Qed.

(** The expression built from a plain pattern. *)
Lemma parse_pattern (pattern : string) :
  plain pattern = true ->
  RegExp.parse
    ("^" +++ replaceAll "?" "." (replaceAll "*" ".*" (replaceAll "." "\." pattern))
         +++ "$")
  = Some (map globItem (chars pattern)).
Proof.
  intros H. rewrite replacements_translate. cbn [String.append RegExp.parse].
  now rewrite (tokens_translate pattern H), parseItems_glob.
Qed.

Lemma globMatch_cons (c : ascii) (pattern path : string) :
  Spec.globMatch (String c pattern) path =
  if Ascii.eqb c "*" then
    Spec.globMatch pattern path
    || match path with
       | EmptyString => false
       | String _ path' => Spec.globMatch (String c pattern) path'
       end
  else if Ascii.eqb c "?" then
    match path with
    | EmptyString => false
    | String _ path' => Spec.globMatch pattern path'
    end
  else
    match path with
    | EmptyString => false
    | String d path' => Ascii.eqb d c && Spec.globMatch pattern path'
    end.
Proof.
  cbn [Spec.globMatch].
  destruct (Ascii.eqb c "*"); [|destruct (Ascii.eqb c "?")];
    destruct path; reflexivity.
Qed.

(** On a path without line terminators the expression decides the glob
    pattern. *)
Lemma matchItems_glob (pattern : string) :
  forall path, singleLine path = true ->
    RegExp.matchItems (map globItem (chars pattern)) path
    = Spec.globMatch pattern path.
Proof.
  unfold singleLine.
  induction pattern as [|c pattern IH]; intros path Hpath; [reflexivity |].
  rewrite globMatch_cons. cbn [chars map]. unfold globItem at 1.
  destruct (Ascii.eqb_spec c "*") as [->|Hstar].
  - cbn [RegExp.matchItems].
    induction path as [|d path IHpath].
    + cbn [RegExp.star]. now rewrite IH.
    + cbn [Spec.allChars] in Hpath. apply andb_prop in Hpath as [Hd Hpath'].
      cbn [RegExp.star RegExp.matchesAtom]. rewrite Hd. cbn [andb].
      rewrite (IHpath Hpath'), IH by (cbn [Spec.allChars]; now rewrite Hd).
      rewrite (globMatch_cons "*" pattern path). reflexivity.
  - destruct (Ascii.eqb c "?"); cbn [RegExp.matchItems RegExp.exactly].
    + destruct path as [|d path]; [reflexivity |].
      cbn [Spec.allChars] in Hpath. apply andb_prop in Hpath as [Hd Hpath'].
      cbn [RegExp.matchesAtom]. rewrite Hd. cbn [andb]. now apply IH.
    + destruct path as [|d path]; [reflexivity |].
      cbn [Spec.allChars] in Hpath. apply andb_prop in Hpath as [Hd Hpath'].
      cbn [RegExp.matchesAtom]. now rewrite IH.
Qed.

Lemma matchesPattern_glob (w : Host) (pattern path : string) :
  conforms (RegExp_test w) ->
  pattern <> "" ->
  plain pattern = true ->
  singleLine path = true ->
  matchesPattern w path (Some pattern) = Return (Spec.globMatch pattern path).
Proof.
  intros Hengine Hnonempty Hplain Hpath. unfold matchesPattern, truthy.
  destruct (String.eqb_spec pattern ""); [congruence |]. cbn [negb].
  rewrite (Hengine _ _ path (parse_pattern pattern Hplain)).
  unfold RegExp.test. now rewrite matchItems_glob.
Qed.

Lemma fragmentEngine_conforms : conforms Examples.fragmentEngine.
Proof.
  intros source r s H. unfold Examples.fragmentEngine. now rewrite H.
Qed.

End GlobFacts.

(** C10. With the empty string as [projectFilter] the matcher answers
    [true] for every path, as it does without a filter: the empty string
    excludes nothing, it is not an anchored pattern that only the empty
    path matches, and the scan is the scan without a project filter. *)
Theorem empty_projectFilter_matches_every_path :
  forall (w : Host) (path : string),
    matchesPattern w path (Some "") = Return true
    /\ matchesPattern w path (Some "") = matchesPattern w path None
    /\ forall date : option Z,
         scanTranscripts w {| projectFilter := Some ""; minDate := date |}
         = scanTranscripts w {| projectFilter := None; minDate := date |}.
Proof.
  intros w path. split; [reflexivity |]. split; [reflexivity |].
  intros date. unfold scanTranscripts, tryBlock.
  destruct (readdirWithFileTypes w (projectsDirOf w)) as [entries|e];
    [|reflexivity].
  cbn [bind].
  now rewrite (ScannerFacts.forOf_ext
                 (scanEntry w {| projectFilter := Some ""; minDate := date |}
                    (projectsDirOf w))
                 (scanEntry w {| projectFilter := None; minDate := date |}
                    (projectsDirOf w)) entries (fun _ _ => eq_refl)).
Qed.

(** C6, as the code has it.  When [projectFilter] is present and not
    empty, has no regular-expression metacharacter besides [.], [*] and
    [?], and the decoded path has no line terminator, the path is
    retained exactly when the whole of it matches the pattern with [*]
    for any sequence of characters, [?] for any single character and
    every other character, the dot included, for itself.  A directory
    whose path does not match is skipped without its files being listed:
    the loop state is unchanged, whatever [readdir] would answer; a
    directory whose path matches has its files listed and scanned. *)
Theorem projectFilter_glob :
  forall (w : Host) (options : ScanOptions) (projectsDir : string)
         (entry : Dirent) (st : State) (pattern : string),
    Glob.conforms (RegExp_test w) ->
    projectFilter options = Some pattern ->
    pattern <> "" ->
    Glob.plain pattern = true ->
    isDirectory entry = true ->
    Glob.singleLine (decodeProjectPath (existsSync w) (name entry)) = true ->
    let projectPath := decodeProjectPath (existsSync w) (name entry) in
    let fullProjectPath := path_join w [projectsDir; name entry] in
    matchesPattern w projectPath (Some pattern)
    = Return (Spec.globMatch pattern projectPath)
    /\ (Spec.globMatch pattern projectPath = false ->
        scanEntry w options projectsDir entry st = Return st)
    /\ (Spec.globMatch pattern projectPath = true ->
        scanEntry w options projectsDir entry st
        = (projectFiles <- readdir w fullProjectPath ;;
           forOf projectFiles
             (scanFile w options projectPath (name entry) fullProjectPath) st)).
Proof.
  intros w options projectsDir entry st pattern
    Hengine Hfilter Hnonempty Hplain Hdir Hline projectPath fullProjectPath.
  pose proof (GlobFacts.matchesPattern_glob w pattern projectPath
                Hengine Hnonempty Hplain Hline) as Hmatch.
  split; [exact Hmatch |].
  unfold scanEntry. rewrite Hdir, Hfilter. cbn [negb].
  fold projectPath. rewrite Hmatch. cbn [bind].
  split; intros Hglob; rewrite Hglob; reflexivity.
Qed.

Lemma projectFilter_glob_witness :
  let options :=
    {| projectFilter := Some "/home/testuser/workspace/*"; minDate := None |} in
  matchesPattern Examples.twoProjects "/home/testuser/workspace/foo"
    (projectFilter options) = Return true
  /\ matchesPattern Examples.twoProjects "/home/testuser/workspace/bar"
       (projectFilter options) = Return true
  /\ scanEntry Examples.twoProjects options Examples.root
       (mkDirent "-home-testuser-other-baz" true) ([], empty_set string)
     = Return ([], empty_set string).
Proof.
  intros options.
  split; [|split].
  - exact (proj1 (projectFilter_glob Examples.twoProjects options Examples.root
                    (mkDirent "-home-testuser-workspace-foo" true)
                    ([], empty_set string) "/home/testuser/workspace/*"
                    GlobFacts.fragmentEngine_conforms eq_refl
                    ltac:(discriminate) eq_refl eq_refl eq_refl)).
  - exact (proj1 (projectFilter_glob Examples.twoProjects options Examples.root
                    (mkDirent "-home-testuser-workspace-bar" true)
                    ([], empty_set string) "/home/testuser/workspace/*"
                    GlobFacts.fragmentEngine_conforms eq_refl
                    ltac:(discriminate) eq_refl eq_refl eq_refl)).
  - exact (proj1 (proj2 (projectFilter_glob Examples.twoProjects options
                           Examples.root
                           (mkDirent "-home-testuser-other-baz" true)
                           ([], empty_set string) "/home/testuser/workspace/*"
                           GlobFacts.fragmentEngine_conforms eq_refl
                           ltac:(discriminate) eq_refl eq_refl eq_refl))
             eq_refl).
Defined.

(** The claim C6 as it is written fails in three ways: the empty
    pattern retains every path, although only the empty path matches it;
    [*] and [?] do not match a line terminator; and a metacharacter such
    as [+] keeps the meaning the expression syntax gives it. *)
Lemma projectFilter_glob_counterexample :
  (matchesPattern Examples.twoProjects "/home/testuser/project1" (Some "")
   = Return true
   /\ Spec.globMatch "" "/home/testuser/project1" = false)
  /\ (matchesPattern Examples.twoProjects
        ("/tmp/a" +++ String "010" "b") (Some "/tmp/*")
      = Return false
      /\ Spec.globMatch "/tmp/*" ("/tmp/a" +++ String "010" "b") = true)
  /\ (matchesPattern Examples.twoProjects "/src/c+" (Some "/src/c+")
      = Return false
      /\ Spec.globMatch "/src/c+" "/src/c+" = true).
Proof. repeat split; reflexivity. Qed.

(** C1, at the input where the code departs from it.  The second project
    directory holds a transcript whose [stat] fails with [ENOENT]; the
    first one has already given a record.  The scan does not fail with
    that error: the [catch] clause takes it for a missing projects
    directory and the empty result is returned. *)
Theorem nested_not_found_returns_empty_result :
  stat Examples.danglingTranscript
    (Examples.root +++ "/-home-testuser-project2/" +++ Examples.uuid2 +++ ".jsonl")
  = Throw Examples.ENOENT
  /\ tryBlock Examples.danglingTranscript Examples.noOptions Examples.root
       ([], empty_set string)
     = Throw Examples.ENOENT
  /\ scanTranscripts Examples.danglingTranscript Examples.noOptions
     = Return {| transcripts := []; totalSize := 0; projectCount := 0 |}.
Proof. repeat split; reflexivity. Qed.

(** * Further properties of the code *)

(** ** PathDecoder: the shape of the candidates *)

Module CandidateFacts.
Import JsString PathDecoder StringFacts DecoderFacts Derived.

Lemma map_render_groupings (segs : list string) :
  forall comps, comps <> [] ->
    map Spec.render (Spec.groupings segs comps)
    = map (fun t => Spec.render comps +++ t) (suffixes segs).
Proof.
  induction segs as [|seg rest IH]; intros comps Hne.
  - cbn [Spec.groupings suffixes map]. now rewrite append_empty_r.
  - cbn [Spec.groupings suffixes].
    destruct comps as [|c comps']; [congruence |].
    set (comps := c :: comps') in *.
    rewrite !map_app, !map_map.
    rewrite IH by (unfold Spec.newComponent; intros H; now apply app_eq_nil in H as [_ H]).
    rewrite IH by (unfold Spec.mergeWithPrevious; intros H; now apply app_eq_nil in H as [_ H]).
    rewrite render_newComponent, render_mergeWithPrevious by assumption.
    f_equal; apply map_ext; intros t; now rewrite !append_assoc.
Qed.

(** The candidates of a list of segments: the first segment after the
    root separator, then every way to continue. *)
Lemma candidates_suffixes (seg : string) (rest : list string) :
  generatePaths (seg :: rest) 0 "" []
  = map (fun t => "/" +++ seg +++ t) (suffixes rest).
Proof.
  rewrite generatePaths_candidates. unfold Spec.candidates.
  cbn [Spec.groupings]. rewrite app_nil_r.
  rewrite map_render_groupings by discriminate.
  apply map_ext. intros t. cbn [Spec.newComponent app Spec.render].
  now rewrite append_empty_r.
Qed.

Lemma split_cons (c : ascii) (s : string) :
  exists seg rest, split c s = seg :: rest.
Proof.
  pose proof (split_not_nil c s). destruct (split c s) as [|seg rest]; [congruence | eauto].
Qed.

Lemma length_suffixes (segs : list string) :
  List.length (suffixes segs) = 2 ^ List.length segs.
Proof.
  induction segs as [|seg rest IH]; [reflexivity |].
  cbn [suffixes List.length]. rewrite length_app, !length_map, IH.
  cbn [Nat.pow]. lia.
Qed.

Lemma length_split (c : ascii) (s : string) :
  List.length (split c s) = S (Spec.countChar c s).
Proof.
  induction s as [|d s IH]; [reflexivity |].
  cbn [split Spec.countChar]. destruct (Ascii.eqb d c).
  - cbn [List.length]. now rewrite IH.
  - destruct (split c s) as [|h t]; simpl in *; lia.
Qed.

(** Replacing the separators of a path by the marker. *)
Lemma reencode_suffix (segs : list string) (t : string) :
  In t (suffixes segs) ->
  replaceAll "/" "-" t
  = String.concat "" (map (fun seg => "-" +++ replaceAll "/" "-" seg) segs).
Proof.
  revert t. induction segs as [|seg rest IH]; intros t Hin.
  - destruct Hin as [<-|[]]. reflexivity.
  - cbn [suffixes] in Hin. apply in_app_or in Hin.
    assert (Hconcat : forall x l,
               String.concat "" (x :: l) = x +++ String.concat "" l).
    { intros x [|y l]; [simpl; now rewrite append_empty_r | reflexivity]. }
    cbn [map]. rewrite Hconcat.
    destruct Hin as [Hin|Hin]; apply in_map_iff in Hin as (t' & <- & Hin');
      rewrite (GlobFacts.replaceAll_append "/" "-" _ (seg +++ t')),
              (GlobFacts.replaceAll_append "/" "-" seg t'), (IH t' Hin');
      cbn [replaceAll Ascii.eqb]; now rewrite ?append_assoc.
Qed.

Lemma reencode_join (l : list string) :
  l <> [] ->
  String.concat "" (map (fun seg => "-" +++ replaceAll "/" "-" seg) l)
  = "-" +++ replaceAll "/" "-" (join "-" l).
Proof.
  unfold join. induction l as [|x l IH]; [congruence |]. intros _.
  destruct l as [|y l].
  - reflexivity.
  - change (String.concat "-" (x :: y :: l))
      with (x +++ "-" +++ String.concat "-" (y :: l)).
    change (String.concat "" (map (fun seg => "-" +++ replaceAll "/" "-" seg) (x :: y :: l)))
      with (("-" +++ replaceAll "/" "-" x)
              +++ "" +++ String.concat ""
                    (map (fun seg => "-" +++ replaceAll "/" "-" seg) (y :: l))).
    rewrite IH by discriminate.
    rewrite !GlobFacts.replaceAll_append. cbn [String.append].
    reflexivity.
Qed.

(** Every candidate of a name re-encodes to the name. *)
Lemma reencode_candidate (rest : string) (p : string) :
  In p (generatePaths (split "-" rest) 0 "" []) ->
  replaceAll "/" "-" p = "-" +++ replaceAll "/" "-" rest.
Proof.
  intros Hin. pose proof (join_split "-" rest) as Hjoin.
  destruct (split_cons "-" rest) as (seg & segs & Hsplit).
  rewrite Hsplit in *. rewrite candidates_suffixes in Hin.
  apply in_map_iff in Hin as (t & <- & Hin).
  rewrite (GlobFacts.replaceAll_append "/" "-" "/" (seg +++ t)),
          (GlobFacts.replaceAll_append "/" "-" seg t), (reencode_suffix segs t Hin).
  rewrite <- Hjoin.
  rewrite <- (reencode_join (seg :: segs)) by discriminate.
  cbn [map]. destruct segs; simpl; now rewrite ?append_empty_r.
Qed.

(** The simple decode is a candidate: the first one. *)
Lemma simpleDecode_render (rest : string) :
  Spec.render (split "-" rest) = "/" +++ replaceAll "-" "/" rest.
Proof.
  induction rest as [|c rest IH]; [reflexivity |].
  cbn [split replaceAll]. destruct (Ascii.eqb c "-").
  - cbn [Spec.render]. now rewrite IH.
  - destruct (split "-" rest) as [|h t].
    + discriminate IH.
    + cbn [Spec.render] in *. cbn [String.append] in *.
      injection IH as IH. now rewrite IH.
Qed.

Lemma simpleDecode_first (name : string) :
  exists later,
    generatePaths (split "-" (slice 1 name)) 0 "" [] = simpleDecode name :: later.
Proof.
  unfold simpleDecode. rewrite <- simpleDecode_render.
  destruct (split_cons "-" (slice 1 name)) as (seg & segs & ->).
  rewrite generatePaths_candidates. unfold Spec.candidates.
  cbn [Spec.groupings]. rewrite app_nil_r.
  assert (H : forall l comps, exists later,
             Spec.groupings l comps = (comps ++ l) :: later).
  { induction l as [|x l IH]; intros comps.
    - exists []. simpl. now rewrite app_nil_r.
    - cbn [Spec.groupings]. destruct (IH (Spec.newComponent comps x)) as (later & ->).
      unfold Spec.newComponent. rewrite <- app_assoc. simpl. eauto. }
  destruct (H segs (Spec.newComponent [] seg)) as (later & ->).
  simpl. eauto.
Qed.

(** What [decode] returns for a name with the marker is one of its
    candidates. *)
Lemma decode_candidate (existsSync : string -> bool) (name : string) :
  startsWith "-" name = true ->
  In (decodeProjectPath existsSync name)
     (generatePaths (split "-" (slice 1 name)) 0 "" []).
Proof.
  intros Hmarker. destruct (simpleDecode_first name) as (later & Hfirst).
  unfold decodeProjectPath. rewrite Hmarker. cbn [negb].
  destruct (existsSync (simpleDecode name)).
  - rewrite Hfirst. now left.
  - cbv zeta. destruct (find existsSync _) as [p|] eqn:Hfind.
    + now apply find_some in Hfind.
    + rewrite Hfirst. now left.
Qed.

Lemma marker_slice (name : string) :
  startsWith "-" name = true -> name = String "-" (slice 1 name).
Proof.
  destruct name as [|c name]; [discriminate |].
  unfold startsWith. cbn [String.prefix].
  destruct (ascii_dec "-" c) as [<-|]; intros H; [reflexivity | discriminate].
Qed.

Lemma length_replaceAll_char (c d : ascii) (s : string) :
  String.length (replaceAll c (String d "") s) = String.length s.
Proof.
  induction s as [|x s IH]; [reflexivity |].
  cbn [replaceAll]. destruct (Ascii.eqb x c); simpl; now rewrite IH.
Qed.

Lemma replaceAll_absent (c : ascii) (by_ s : string) :
  Spec.countChar c s = 0 -> replaceAll c by_ s = s.
Proof.
  induction s as [|x s IH]; [reflexivity |].
  cbn [Spec.countChar replaceAll]. destruct (Ascii.eqb x c); [lia |].
  intros H. now rewrite IH.
Qed.

Lemma find_agree {A : Type} (f g : A -> bool) (l : list A) :
  (forall x, In x l -> f x = g x) -> find f l = find g l.
Proof.
  induction l as [|x l IH]; intros H; [reflexivity |].
  simpl. rewrite <- (H x) by now left.
  destruct (f x); [reflexivity |]. apply IH. intros y Hy. apply H. now right.
Qed.

End CandidateFacts.

Import Derived.

(** X1. Replacing every separator of the decoded path by the marker
    gives what the same replacement gives on the directory name; for a
    directory name without a separator it gives the name back: the
    decoded path is always a reading of the encoded name. *)
Theorem decode_reencodes_to_name :
  forall (existsSync : string -> bool) (name : string),
    replaceAll "/" "-" (decodeProjectPath existsSync name)
    = replaceAll "/" "-" name
    /\ (Spec.countChar "/" name = 0 ->
        replaceAll "/" "-" (decodeProjectPath existsSync name) = name).
Proof.
  intros existsSync name.
  assert (H : replaceAll "/" "-" (decodeProjectPath existsSync name)
              = replaceAll "/" "-" name).
  { destruct (startsWith "-" name) eqn:Hmarker.
    - rewrite (CandidateFacts.reencode_candidate (slice 1 name) _
                 (CandidateFacts.decode_candidate existsSync name Hmarker)).
      now rewrite (CandidateFacts.marker_slice name Hmarker) at 2.
    - unfold decodeProjectPath. now rewrite Hmarker. }
  split; [exact H |].
  intros Hnone. rewrite H. now apply CandidateFacts.replaceAll_absent.
Qed.

Lemma decode_reencodes_to_name_witness :
  replaceAll "/" "-" (decodeProjectPath Examples.myProject "-home-user-my-project")
  = "-home-user-my-project".
Proof.
  apply (proj2 (decode_reencodes_to_name Examples.myProject "-home-user-my-project")).
  reflexivity.
Defined.

(** X2. The decoded path has the length of the directory name, and for a
    name with the marker it is absolute: it starts with the root
    separator. *)
Theorem decode_same_length_and_absolute :
  forall (existsSync : string -> bool) (name : string),
    String.length (decodeProjectPath existsSync name) = String.length name
    /\ (startsWith "-" name = true ->
        startsWith "/" (decodeProjectPath existsSync name) = true).
Proof.
  intros existsSync name. split.
  - rewrite <- (CandidateFacts.length_replaceAll_char "/" "-" name).
    rewrite <- (CandidateFacts.length_replaceAll_char "/" "-"
                  (decodeProjectPath existsSync name)).
    f_equal.
    destruct (startsWith "-" name) eqn:Hmarker.
    + rewrite (CandidateFacts.reencode_candidate (slice 1 name) _
                 (CandidateFacts.decode_candidate existsSync name Hmarker)).
      now rewrite (CandidateFacts.marker_slice name Hmarker) at 2.
    + unfold decodeProjectPath. now rewrite Hmarker.
  - intros Hmarker.
    pose proof (CandidateFacts.decode_candidate existsSync name Hmarker) as Hin.
    destruct (CandidateFacts.split_cons "-" (slice 1 name)) as (seg & segs & Hsplit).
    rewrite Hsplit, CandidateFacts.candidates_suffixes in Hin.
    apply in_map_iff in Hin as (t & <- & _).
    unfold startsWith. cbn [String.append]. destruct (seg +++ t); reflexivity.
Qed.

Lemma decode_same_length_and_absolute_witness :
  startsWith "/" (decodeProjectPath Examples.myProject "-home-user-my-project")
  = true.
Proof.
  apply (proj2 (decode_same_length_and_absolute Examples.myProject
                  "-home-user-my-project")).
  reflexivity.
Defined.

(** X3. For a name with the marker, the decoded path is one of the
    generated candidates, and it exists on the file system exactly when
    some candidate does: the fallback is only returned when no reading
    of the name exists. *)
Theorem decode_exists_iff_some_candidate_exists :
  forall (existsSync : string -> bool) (name : string),
    startsWith "-" name = true ->
    In (decodeProjectPath existsSync name)
       (generatePaths (split "-" (slice 1 name)) 0 "" [])
    /\ (existsSync (decodeProjectPath existsSync name) = true <->
        exists p, In p (generatePaths (split "-" (slice 1 name)) 0 "" [])
                  /\ existsSync p = true).
Proof.
  intros existsSync name Hmarker.
  pose proof (CandidateFacts.decode_candidate existsSync name Hmarker) as Hin.
  split; [exact Hin |]. split.
  - intros Hex. eauto.
  - intros (p & Hp & Hex). unfold decodeProjectPath. rewrite Hmarker. cbn [negb].
    destruct (existsSync (simpleDecode name)) eqn:Hsimple; [exact Hsimple |].
    cbv zeta. destruct (find existsSync _) as [q|] eqn:Hfind.
    + now apply find_some in Hfind.
    + rewrite (find_none _ _ Hfind p Hp) in Hex. discriminate.
Qed.

Lemma decode_exists_iff_some_candidate_exists_witness :
  In (decodeProjectPath twoReadings "-a-b-c")
     (generatePaths (split "-" (slice 1 "-a-b-c")) 0 "" [])
  /\ twoReadings (decodeProjectPath twoReadings "-a-b-c") = true.
Proof.
  destruct (decode_exists_iff_some_candidate_exists twoReadings "-a-b-c" eq_refl)
    as [Hin Hiff].
  split; [exact Hin |].
  apply Hiff. exists "/a-b/c". split; [|reflexivity].
  right. right. left. reflexivity.
Defined.

(** X4. The number of candidates generated for a name is two to the
    power of the number of markers after the leading one. *)
Theorem candidate_count :
  forall name : string,
    List.length (generatePaths (split "-" (slice 1 name)) 0 "" [])
    = 2 ^ Spec.countChar "-" (slice 1 name).
Proof.
  intros name.
  pose proof (CandidateFacts.length_split "-" (slice 1 name)) as Hlen.
  destruct (CandidateFacts.split_cons "-" (slice 1 name)) as (seg & segs & Hsplit).
  rewrite Hsplit in *. rewrite CandidateFacts.candidates_suffixes.
  rewrite length_map, CandidateFacts.length_suffixes.
  cbn [List.length] in Hlen. f_equal. lia.
Qed.

(** X5. [decode] asks the file system about candidate paths only: with
    two file systems that agree on the candidates of a name, it returns
    the same path.  In particular no parent directory is looked at. *)
Theorem decode_depends_on_candidates_only :
  forall (existsSync existsSync' : string -> bool) (name : string),
    (forall p, In p (generatePaths (split "-" (slice 1 name)) 0 "" []) ->
               existsSync p = existsSync' p) ->
    decodeProjectPath existsSync name = decodeProjectPath existsSync' name.
Proof.
  intros ex ex' name Hagree.
  destruct (CandidateFacts.simpleDecode_first name) as (later & Hfirst).
  unfold decodeProjectPath. destruct (negb (startsWith "-" name)); [reflexivity |].
  rewrite <- (Hagree (simpleDecode name)) by (rewrite Hfirst; now left).
  destruct (ex (simpleDecode name)); [reflexivity |].
  cbv zeta. now rewrite (CandidateFacts.find_agree ex ex' _ Hagree).
Qed.

Lemma decode_depends_on_candidates_only_witness :
  decodeProjectPath Examples.myProject "-home-user-my-project"
  = decodeProjectPath (Examples.existsIn ["/home/user/my-project"])
      "-home-user-my-project".
Proof.
  apply (decode_depends_on_candidates_only Examples.myProject
           (Examples.existsIn ["/home/user/my-project"]) "-home-user-my-project").
  intros p Hin. simpl in Hin.
  repeat (destruct Hin as [<-|Hin]; [reflexivity |]).
  destruct Hin.
Defined.

(** X6. Tie-break.  When some candidate that keeps the first two
    segments as separate components exists, [decode] returns a candidate
    of that kind, whatever candidates that merge the two segments exist
    as well. *)
Theorem decode_prefers_split_at_first_boundary :
  forall (existsSync : string -> bool) (name seg0 seg1 : string)
         (rest : list string) (t : string),
    startsWith "-" name = true ->
    split "-" (slice 1 name) = seg0 :: seg1 :: rest ->
    In t (suffixes rest) ->
    existsSync ("/" +++ seg0 +++ "/" +++ seg1 +++ t) = true ->
    exists t', In t' (suffixes rest)
               /\ decodeProjectPath existsSync name
                  = "/" +++ seg0 +++ "/" +++ seg1 +++ t'.
Proof.
  intros ex name seg0 seg1 rest t Hmarker Hsplit Ht Hex.
  destruct (CandidateFacts.simpleDecode_first name) as (later & Hfirst).
  assert (Hcands : generatePaths (split "-" (slice 1 name)) 0 "" []
                   = map (fun t => "/" +++ seg0 +++ "/" +++ seg1 +++ t) (suffixes rest)
                     ++ map (fun t => "/" +++ seg0 +++ "-" +++ seg1 +++ t) (suffixes rest)).
  { rewrite Hsplit, CandidateFacts.candidates_suffixes. cbn [suffixes].
    now rewrite map_app, !map_map. }
  set (kept := map (fun t => "/" +++ seg0 +++ "/" +++ seg1 +++ t) (suffixes rest)) in *.
  assert (Hkept : forall p, In p kept ->
            exists t', In t' (suffixes rest)
                       /\ p = "/" +++ seg0 +++ "/" +++ seg1 +++ t').
  { intros p Hp. apply in_map_iff in Hp as (t' & <- & Ht'). eauto. }
  assert (Hsimple : In (simpleDecode name) kept).
  { rewrite Hcands in Hfirst. destruct kept as [|k kept'] eqn:Ek.
    - apply (f_equal (@List.length string)) in Ek. unfold kept in Ek.
      rewrite length_map, CandidateFacts.length_suffixes in Ek.
      pose proof (Nat.pow_nonzero 2 (List.length rest)). simpl in Ek. lia.
    - injection Hfirst as <- _. now left. }
  unfold decodeProjectPath. rewrite Hmarker. cbn [negb].
  destruct (ex (simpleDecode name)); [now apply Hkept |].
  cbv zeta. rewrite Hcands.
  assert (Hfind : exists p, find ex (kept ++ map (fun t => "/" +++ seg0 +++ "-" +++ seg1 +++ t)
                                       (suffixes rest)) = Some p /\ In p kept).
  { assert (Hin : In ("/" +++ seg0 +++ "/" +++ seg1 +++ t) kept)
      by (unfold kept; apply in_map_iff; eauto).
    clear Hsimple Hkept Hcands Hfirst.
    induction kept as [|k kept' IH]; [destruct Hin |].
    simpl. destruct (ex k) eqn:Hk.
    - exists k. split; [reflexivity | now left].
    - destruct Hin as [->|Hin]; [congruence |].
      destruct (IH Hin) as (p & Hp & Hpin). exists p. split; [exact Hp | now right]. }
  destruct Hfind as (p & -> & Hp). now apply Hkept.
Qed.

Lemma decode_prefers_split_at_first_boundary_witness :
  exists t', In t' (suffixes ["c"])
             /\ decodeProjectPath twoReadings "-a-b-c" = "/" +++ "a" +++ "/" +++ "b" +++ t'.
Proof.
  apply (decode_prefers_split_at_first_boundary twoReadings "-a-b-c" "a" "b" ["c"] "-c").
  - reflexivity.
  - reflexivity.
  - right. left. reflexivity.
  - reflexivity.
Defined.

(** ** TranscriptScanner: failures, records and aggregates *)

Module ScanExtraFacts.
Import JsString PathDecoder Scanner StringFacts ScannerFacts UuidFacts FileNameFacts.

Lemma forOf_app {A S : Type} (body : A -> S -> result S) (xs ys : list A) (st : S) :
  forOf (xs ++ ys) body st = (st' <- forOf xs body st ;; forOf ys body st').
Proof.
  revert st. induction xs as [|x xs IH]; intros st; [reflexivity |].
  simpl. destruct (body x st); simpl; auto.
Qed.

Lemma forOf_In_invariant {A S : Type} (P : S -> Prop) (body : A -> S -> result S)
    (xs : list A) :
  (forall x s s', In x xs -> P s -> body x s = Return s' -> P s') ->
  forall st st', P st -> forOf xs body st = Return st' -> P st'.
Proof.
  induction xs as [|x xs IH]; simpl; intros Hbody st st' HP Hrun.
  - now inversion Hrun; subst.
  - destruct (body x st) as [s1|e] eqn:Hx; simpl in Hrun; [|discriminate].
    apply (IH (fun y s s' Hy => Hbody y s s' (or_intror Hy)) s1 st'); eauto.
Qed.

(** A qualifying name is its session identifier followed by the
    extension. *)
Lemma qualifies_sessionId (fileName : string) :
  Spec.qualifies fileName = true ->
  Spec.isCanonicalUuid (replaceFirst ".jsonl" "" fileName) = true
  /\ replaceFirst ".jsonl" "" fileName +++ ".jsonl" = fileName.
Proof.
  intros Hq. pose proof Hq as Hcode. rewrite qualifies_code in Hcode.
  apply andb_prop in Hcode as [Hname Huuid].
  rewrite uuid_regex_canonical in Huuid. split; [exact Huuid |].
  apply negb_true_iff, orb_false_iff in Hname as [_ Hext].
  apply negb_false_iff in Hext.
  rewrite (session_id_checked fileName Hext) in Huuid.
  pose proof (endsWith_decompose _ _ Hext) as Hdec.
  rewrite Hdec at 1. rewrite replaceFirst_extension by now apply canonical_no_dot.
  now rewrite <- Hdec.
Qed.

Lemma stats_eta (s : Stats) : s = {| size := size s; mtime := mtime s |}.
Proof. now destruct s. Qed.

End ScanExtraFacts.



(** X8. The first entry of the projects directory whose processing
    throws decides the outcome of the scan: an error with the code
    [ENOENT] gives the empty result, any other error is thrown as it is;
    in both cases the records of the entries before it are dropped and
    the entries after it are not looked at. *)
Theorem first_failure_decides_the_scan :
  forall (w : Host) (options : ScanOptions) (before after : list Dirent)
         (entry : Dirent) (st : State) (error : Error),
    readdirWithFileTypes w (projectsDirOf w) = Return (before ++ entry :: after) ->
    forOf before (scanEntry w options (projectsDirOf w)) ([], empty_set string)
    = Return st ->
    scanEntry w options (projectsDirOf w) entry st = Throw error ->
    scanTranscripts w options
    = if notFound error then Return emptyResult else Throw error.
Proof.
  intros w options before after entry st error Hlist Hbefore Hentry.
  apply ScannerFacts.scan_catch. unfold tryBlock. rewrite Hlist. cbn [bind].
  rewrite ScanExtraFacts.forOf_app, Hbefore. cbn [bind forOf].
  now rewrite Hentry.
Qed.

Lemma first_failure_decides_the_scan_witness :
  scanTranscripts refusedListing Examples.noOptions = Throw Examples.EACCES.
Proof.
  apply (first_failure_decides_the_scan refusedListing Examples.noOptions
           [mkDirent "-home-testuser-project1" true] []
           (mkDirent "-home-testuser-project2" true)
           ([ {| projectPath := "/home/testuser/project1";
                 projectDir := "-home-testuser-project1";
                 sessionId := Examples.uuid1;
                 filePath := Examples.root +++ "/-home-testuser-project1/"
                               +++ Examples.uuid1 +++ ".jsonl";
                 fileSize := 1024;
                 modifiedTime := 1769212800000 |} ],
            ["-home-testuser-project1"])
           Examples.EACCES); reflexivity.
Defined.

(** X9. When the projects directory lists no directory (it is empty, or
    holds plain files only), the scan returns the empty result. *)
Theorem scan_without_directories_is_empty :
  forall (w : Host) (options : ScanOptions) (entries : list Dirent),
    readdirWithFileTypes w (projectsDirOf w) = Return entries ->
    (forall entry, In entry entries -> isDirectory entry = false) ->
    scanTranscripts w options = Return emptyResult.
Proof.
  intros w options entries Hlist Hfiles.
  assert (Hloop : forall st, forOf entries (scanEntry w options (projectsDirOf w)) st
                             = Return st).
  { clear Hlist.
    induction entries as [|entry entries IH]; intros st; [reflexivity |].
    simpl. unfold scanEntry at 1. rewrite (Hfiles entry) by now left.
    cbn [negb bind]. apply IH.
    intros e He. apply Hfiles. now right. }
  rewrite (ScannerFacts.scan_return w options ([], empty_set string)).
  - reflexivity.
  - unfold tryBlock. rewrite Hlist. cbn [bind]. apply Hloop.
Qed.

Lemma scan_without_directories_is_empty_witness :
  scanTranscripts noDirectories Examples.noOptions = Return emptyResult.
Proof.
  apply (scan_without_directories_is_empty noDirectories Examples.noOptions
           [mkDirent "notes.txt" false; mkDirent "-home-testuser-x" false]).
  - reflexivity.
  - intros entry [<-|[<-|[]]]; reflexivity.
Defined.

(** X10. In a returned result [projectCount] is at most the number of
    transcripts, and it is zero exactly when there is no transcript. *)
Theorem projectCount_bounds :
  forall (w : Host) (options : ScanOptions) (r : ScanResult),
    scanTranscripts w options = Return r ->
    projectCount r <= List.length (transcripts r)
    /\ (projectCount r = 0 <-> transcripts r = []).
Proof.
  intros w options r Hscan.
  destruct (tryBlock w options (projectsDirOf w) ([], empty_set string))
    as [st|error] eqn:Htry.
  - rewrite (ScannerFacts.scan_return w options st Htry) in Hscan.
    injection Hscan as <-. cbn [projectCount transcripts].
    destruct (ScannerFacts.tryBlock_consistent w options _ st Htry) as [Hnodup Hsame].
    split.
    + rewrite <- (length_map projectDir (fst st)).
      apply NoDup_incl_length; [exact Hnodup |]. intros d Hd. now apply Hsame.
    + split; intros H.
      * apply length_zero_iff_nil in H.
        destruct (fst st) as [|t ts]; [reflexivity |].
        assert (Hin : In (projectDir t) (snd st))
          by (apply Hsame; now left).
        rewrite H in Hin. destruct Hin.
      * apply length_zero_iff_nil.
        destruct (snd st) as [|d ds]; [reflexivity |].
        assert (Hin : In d (map projectDir (fst st)))
          by (apply Hsame; now left).
        rewrite H in Hin. destruct Hin.
  - rewrite (ScannerFacts.scan_catch w options error Htry) in Hscan.
    destruct (notFound error); [|discriminate].
    injection Hscan as <-. simpl. split; [lia | tauto].
Qed.

Lemma projectCount_bounds_witness :
  exists r, scanTranscripts Examples.twoProjects Examples.noOptions = Return r
            /\ projectCount r <= List.length (transcripts r).
Proof.
  eexists. split; [reflexivity |].
  exact (proj1 (projectCount_bounds Examples.twoProjects Examples.noOptions _ eq_refl)).
Defined.

Module RecordFacts.
Import JsString PathDecoder Scanner StringFacts ScannerFacts FileNameFacts
       ScanExtraFacts.

(** What one turn of the file loop does to the state: nothing, or one
    record pushed for a qualifying file that is not too old. *)
Lemma scanFile_pushes (w : Host) (options : ScanOptions)
    (path dir full fileName : string) (st st' : State) :
  scanFile w options path dir full fileName st = Return st' ->
  st' = st
  \/ exists fileStats,
       Spec.qualifies fileName = true
       /\ stat w (path_join w [full; fileName]) = Return fileStats
       /\ (forall bound, minDate options = Some bound ->
                         (bound <= mtime fileStats)%Z)
       /\ st' = (fst st ++ [ {| projectPath := path;
                                projectDir := dir;
                                sessionId := replaceFirst ".jsonl" "" fileName;
                                filePath := path_join w [full; fileName];
                                fileSize := size fileStats;
                                modifiedTime := mtime fileStats |} ],
                 set_add string_dec dir (snd st)).
Proof.
  intros Hrun. destruct (Spec.qualifies fileName) eqn:Hq.
  - rewrite (scanFile_qualified w options path dir full fileName st Hq) in Hrun.
    destruct (stat w (path_join w [full; fileName])) as [fileStats|e];
      [|discriminate].
    cbn [bind] in Hrun.
    destruct (minDate options) as [bound|] eqn:Hmin.
    + destruct (Z.ltb_spec (mtime fileStats) bound) as [Hlt|Hge];
        injection Hrun as <-; [now left |].
      right. exists fileStats. repeat split; trivial.
      intros b Hb. injection Hb as <-. exact Hge.
    + injection Hrun as <-. right. exists fileStats. repeat split; trivial.
      discriminate.
  - rewrite (scanFile_skipped w options path dir full fileName st Hq) in Hrun.
    injection Hrun as <-. now left.
Qed.

Lemma scanFile_keeps (w : Host) (options : ScanOptions)
    (path dir full fileName : string) (st st' : State) (t : TranscriptFile) :
  scanFile w options path dir full fileName st = Return st' ->
  In t (fst st) -> In t (fst st').
Proof.
  intros Hrun Hin. apply scanFile_pushes in Hrun as [->|(s & _ & _ & _ & ->)];
    [assumption |].
  cbn [fst]. apply in_or_app. now left.
Qed.

Lemma scanEntry_keeps (w : Host) (options : ScanOptions) (projectsDir : string)
    (entry : Dirent) (st st' : State) (t : TranscriptFile) :
  scanEntry w options projectsDir entry st = Return st' ->
  In t (fst st) -> In t (fst st').
Proof.
  unfold scanEntry. intros Hrun Hin.
  destruct (negb (isDirectory entry)); [now injection Hrun as <- |].
  destruct (matchesPattern w _ _) as [[|]|e]; cbn [bind negb] in Hrun;
    [|now injection Hrun as <- | discriminate].
  destruct (readdir w _) as [files|e]; cbn [bind] in Hrun; [|discriminate].
  revert Hin Hrun.
  apply (forOf_invariant (fun s => In t (fst s))).
  intros fileName s s' Hs Hstep. now apply (scanFile_keeps _ _ _ _ _ _ _ _ _ Hstep).
Qed.

Lemma forOf_keeps (w : Host) (options : ScanOptions) (projectsDir : string)
    (entries : list Dirent) (st st' : State) (t : TranscriptFile) :
  forOf entries (scanEntry w options projectsDir) st = Return st' ->
  In t (fst st) -> In t (fst st').
Proof.
  intros Hrun Hin. revert Hin Hrun.
  apply (forOf_invariant (fun s => In t (fst s))).
  intros entry s s' Hs Hstep. now apply (scanEntry_keeps _ _ _ _ _ _ _ Hstep).
Qed.

(** A loop that returns has returned at each of its turns. *)
Lemma forOf_split {A S : Type} (body : A -> S -> result S)
    (xs ys : list A) (x : A) (st st' : S) :
  forOf (xs ++ x :: ys) body st = Return st' ->
  exists s1 s2, forOf xs body st = Return s1
                /\ body x s1 = Return s2
                /\ forOf ys body s2 = Return st'.
Proof.
  rewrite forOf_app. intros Hrun.
  destruct (forOf xs body st) as [s1|e]; [|discriminate].
  cbn [bind forOf] in Hrun.
  destruct (body x s1) as [s2|e] eqn:Hx; [|discriminate].
  cbn [bind] in Hrun. exists s1, s2. auto.
Qed.

(** The records of a scan that the [try] block completes: each comes
    from a listed file of a listed directory. *)
Lemma tryBlock_records (w : Host) (options : ScanOptions) (st : State)
    (P : TranscriptFile -> Prop) :
  tryBlock w options (projectsDirOf w) ([], empty_set string) = Return st ->
  (forall entries entry files fileName fileStats,
      readdirWithFileTypes w (projectsDirOf w) = Return entries ->
      In entry entries ->
      isDirectory entry = true ->
      matchesPattern w (decodeProjectPath (existsSync w) (name entry))
        (projectFilter options) = Return true ->
      readdir w (path_join w [projectsDirOf w; name entry]) = Return files ->
      In fileName files ->
      Spec.qualifies fileName = true ->
      stat w (path_join w [path_join w [projectsDirOf w; name entry]; fileName])
      = Return fileStats ->
      (forall bound, minDate options = Some bound -> (bound <= mtime fileStats)%Z) ->
      P {| projectPath := decodeProjectPath (existsSync w) (name entry);
           projectDir := name entry;
           sessionId := replaceFirst ".jsonl" "" fileName;
           filePath := path_join w [path_join w [projectsDirOf w; name entry];
                                    fileName];
           fileSize := size fileStats;
           modifiedTime := mtime fileStats |}) ->
  forall t, In t (fst st) -> P t.
Proof.
  intros Htry Hpush. unfold tryBlock in Htry.
  destruct (readdirWithFileTypes w (projectsDirOf w)) as [entries|e] eqn:Hlist;
    [|discriminate].
  cbn [bind] in Htry. revert Htry.
  apply (forOf_In_invariant (fun s => forall t, In t (fst s) -> P t));
    [|intros t []].
  intros entry s s' Hentry Hs Hstep. unfold scanEntry in Hstep.
  destruct (isDirectory entry) eqn:Hdir; cbn [negb] in Hstep;
    [|now injection Hstep as <-].
  destruct (matchesPattern w _ _) as [[|]|e] eqn:Hmatch; cbn [bind negb] in Hstep;
    [|now injection Hstep as <- | discriminate].
  destruct (readdir w _) as [files|e] eqn:Hfiles; cbn [bind] in Hstep;
    [|discriminate].
  revert Hs Hstep.
  apply (forOf_In_invariant (fun s => forall t, In t (fst s) -> P t)).
  intros fileName s1 s2 Hfile Hs1 Hrun t Ht.
  apply scanFile_pushes in Hrun as [->|(fileStats & Hq & Hstat & Hdate & ->)];
    [now apply Hs1 |].
  cbn [fst] in Ht. apply in_app_or in Ht as [Ht|[<-|[]]]; [now apply Hs1 |].
  now apply (Hpush entries entry files fileName fileStats).
Qed.

Lemma scan_returned (w : Host) (options : ScanOptions) (r : ScanResult) :
  scanTranscripts w options = Return r ->
  r = emptyResult
  \/ exists st,
       tryBlock w options (projectsDirOf w) ([], empty_set string) = Return st
       /\ transcripts r = fst st.
Proof.
  intros Hscan.
  destruct (tryBlock w options (projectsDirOf w) ([], empty_set string))
    as [st|error] eqn:Htry.
  - rewrite (scan_return w options st Htry) in Hscan. injection Hscan as <-.
    right. eauto.
  - rewrite (scan_catch w options error Htry) in Hscan.
    destruct (notFound error); [|discriminate]. injection Hscan as <-. now left.
Qed.

Lemma notFound_code (error : Error) :
  notFound error = true -> code error = Some "ENOENT".
Proof.
  unfold notFound. destruct (code error) as [c|]; [|discriminate].
  intros H. apply String.eqb_eq in H. now subst.
Qed.

(** The two ways in which the scan returns: the [try] block threw
    [ENOENT] and the result is the empty one, or the block ran to its
    end and the result holds its records. *)
Lemma scan_returned_cases (w : Host) (options : ScanOptions) (r : ScanResult) :
  scanTranscripts w options = Return r ->
  (exists error,
      tryBlock w options (projectsDirOf w) ([], empty_set string) = Throw error
      /\ code error = Some "ENOENT"
      /\ r = emptyResult)
  \/ (exists st,
        tryBlock w options (projectsDirOf w) ([], empty_set string) = Return st
        /\ transcripts r = fst st).
Proof.
  intros Hscan.
  destruct (tryBlock w options (projectsDirOf w) ([], empty_set string))
    as [st|error] eqn:Htry.
  - rewrite (scan_return w options st Htry) in Hscan. injection Hscan as <-.
    right. eauto.
  - rewrite (scan_catch w options error Htry) in Hscan.
    destruct (notFound error) eqn:Hnf; [|discriminate]. injection Hscan as <-.
    left. exists error. auto using notFound_code.
Qed.

End RecordFacts.

(** X11. Every record of a returned result is well formed: its
    [sessionId] is a canonical UUID, its [projectPath] is the decoding of
    its [projectDir], its [filePath] is the file [sessionId.jsonl] of
    that directory under the projects directory, its size and time are
    what [stat] answers for that file, its project path passes the
    project filter, and it is not older than [minDate]. *)
Theorem returned_records_are_well_formed :
  forall (w : Host) (options : ScanOptions) (r : ScanResult) (t : TranscriptFile),
    scanTranscripts w options = Return r ->
    In t (transcripts r) ->
    Spec.isCanonicalUuid (sessionId t) = true
    /\ projectPath t = decodeProjectPath (existsSync w) (projectDir t)
    /\ filePath t
       = path_join w [path_join w [projectsDirOf w; projectDir t];
                      sessionId t +++ ".jsonl"]
    /\ stat w (filePath t)
       = Return {| size := fileSize t; mtime := modifiedTime t |}
    /\ matchesPattern w (projectPath t) (projectFilter options) = Return true
    /\ (forall bound, minDate options = Some bound ->
                      (bound <= modifiedTime t)%Z).
Proof.
  intros w options r t Hscan Hin.
  destruct (RecordFacts.scan_returned w options r Hscan) as [->|(st & Htry & Hts)];
    [destruct Hin |].
  rewrite Hts in Hin. revert t Hin.
  apply (RecordFacts.tryBlock_records w options st _ Htry).
  intros entries entry files fileName fileStats
    _ _ _ Hmatch _ _ Hq Hstat Hdate.
  destruct (ScanExtraFacts.qualifies_sessionId fileName Hq) as [Huuid Hname].
  cbn [sessionId projectPath projectDir filePath fileSize modifiedTime].
  rewrite Hname, <- ScanExtraFacts.stats_eta.
  repeat split; trivial.
Qed.

Lemma returned_records_are_well_formed_witness :
  Spec.isCanonicalUuid Examples.uuid2 = true.
Proof.
  apply (returned_records_are_well_formed Examples.twoProjects Examples.noOptions
           _ {| projectPath := "/home/testuser/project2";
                projectDir := "-home-testuser-project2";
                sessionId := Examples.uuid2;
                filePath := Examples.root +++ "/-home-testuser-project2/"
                              +++ Examples.uuid2 +++ ".jsonl";
                fileSize := 1024;
                modifiedTime := 1769212800000 |} eq_refl).
  right. left. reflexivity.
Defined.

(** X12. Every record of a returned result comes from the listings: its
    [projectDir] is the name of a directory entry of the projects
    directory, and the file [sessionId.jsonl] is in the listing of that
    directory. *)
Theorem returned_records_come_from_the_listings :
  forall (w : Host) (options : ScanOptions) (r : ScanResult) (t : TranscriptFile),
    scanTranscripts w options = Return r ->
    In t (transcripts r) ->
    exists entries entry files,
      readdirWithFileTypes w (projectsDirOf w) = Return entries
      /\ In entry entries
      /\ isDirectory entry = true
      /\ name entry = projectDir t
      /\ readdir w (path_join w [projectsDirOf w; projectDir t]) = Return files
      /\ In (sessionId t +++ ".jsonl") files.
Proof.
  intros w options r t Hscan Hin.
  destruct (RecordFacts.scan_returned w options r Hscan) as [->|(st & Htry & Hts)];
    [destruct Hin |].
  rewrite Hts in Hin. revert t Hin.
  apply (RecordFacts.tryBlock_records w options st _ Htry).
  intros entries entry files fileName fileStats
    Hlist Hentry Hdir _ Hfiles Hfile Hq _ _.
  destruct (ScanExtraFacts.qualifies_sessionId fileName Hq) as [_ Hname].
  cbn [sessionId projectDir]. rewrite Hname.
  exists entries, entry, files. repeat split; trivial.
Qed.

Lemma returned_records_come_from_the_listings_witness :
  exists entries entry files,
    readdirWithFileTypes Examples.twoProjects (projectsDirOf Examples.twoProjects)
    = Return entries
    /\ In entry entries
    /\ isDirectory entry = true
    /\ name entry = "-home-testuser-project2"
    /\ readdir Examples.twoProjects
         (path_join Examples.twoProjects
            [projectsDirOf Examples.twoProjects; "-home-testuser-project2"])
       = Return files
    /\ In (Examples.uuid2 +++ ".jsonl") files.
Proof.
  apply (returned_records_come_from_the_listings Examples.twoProjects
           Examples.noOptions
           _ {| projectPath := "/home/testuser/project2";
                projectDir := "-home-testuser-project2";
                sessionId := Examples.uuid2;
                filePath := Examples.root +++ "/-home-testuser-project2/"
                              +++ Examples.uuid2 +++ ".jsonl";
                fileSize := 1024;
                modifiedTime := 1769212800000 |} eq_refl).
  right. left. reflexivity.
Defined.

(** X13. No qualifying file is missed.  When the scan returns, either
    a call of the [try] block threw an error with the code [ENOENT] and
    the result is the empty result, or the block ran to its end and the
    result holds the record of every qualifying file that is listed in
    a listed directory whose decoded path passes the project filter,
    whose [stat] succeeds and that is not older than [minDate]. *)
Theorem every_qualifying_file_is_reported :
  forall (w : Host) (options : ScanOptions) (r : ScanResult)
         (entries : list Dirent) (entry : Dirent)
         (files : list string) (fileName : string) (fileStats : Stats),
    scanTranscripts w options = Return r ->
    readdirWithFileTypes w (projectsDirOf w) = Return entries ->
    In entry entries ->
    isDirectory entry = true ->
    matchesPattern w (decodeProjectPath (existsSync w) (name entry))
      (projectFilter options) = Return true ->
    readdir w (path_join w [projectsDirOf w; name entry]) = Return files ->
    In fileName files ->
    Spec.qualifies fileName = true ->
    stat w (path_join w [path_join w [projectsDirOf w; name entry]; fileName])
    = Return fileStats ->
    (forall bound, minDate options = Some bound -> (bound <= mtime fileStats)%Z) ->
    (exists error,
        tryBlock w options (projectsDirOf w) ([], empty_set string) = Throw error
        /\ code error = Some "ENOENT"
        /\ r = emptyResult)
    \/ ((exists st,
           tryBlock w options (projectsDirOf w) ([], empty_set string) = Return st)
        /\ In {| projectPath := decodeProjectPath (existsSync w) (name entry);
                 projectDir := name entry;
                 sessionId := replaceFirst ".jsonl" "" fileName;
                 filePath := path_join w [path_join w [projectsDirOf w; name entry];
                                          fileName];
                 fileSize := size fileStats;
                 modifiedTime := mtime fileStats |}
              (transcripts r)).
Proof.
  intros w options r entries entry files fileName fileStats
    Hscan Hlist Hentry Hdir Hmatch Hfiles Hfile Hq Hstat Hdate.
  destruct (RecordFacts.scan_returned_cases w options r Hscan)
    as [Hthrown|(st & Htry & Hts)]; [now left |].
  right. split; [now exists st |].
  rewrite Hts. unfold tryBlock in Htry. rewrite Hlist in Htry.
  cbn [bind] in Htry.
  apply in_split in Hentry as (before & after & ->).
  apply RecordFacts.forOf_split in Htry as (s1 & s2 & _ & Hstep & Hafter).
  apply (RecordFacts.forOf_keeps _ _ _ _ _ _ _ Hafter).
  unfold scanEntry in Hstep. rewrite Hdir, Hmatch in Hstep.
  cbn [negb bind] in Hstep. rewrite Hfiles in Hstep. cbn [bind] in Hstep.
  apply in_split in Hfile as (fbefore & fafter & ->).
  apply RecordFacts.forOf_split in Hstep as (f1 & f2 & _ & Hpush & Hrest).
  revert Hrest.
  apply (ScannerFacts.forOf_invariant (fun s => In _ (fst s))).
  - intros f s s' Hs Hrun. now apply (RecordFacts.scanFile_keeps _ _ _ _ _ _ _ _ _ Hrun).
  - rewrite (FileNameFacts.scanFile_qualified _ _ _ _ _ _ _ Hq), Hstat in Hpush.
    cbn [bind] in Hpush.
    destruct (minDate options) as [bound|] eqn:Hmin.
    + destruct (Z.ltb_spec (mtime fileStats) bound) as [Hlt|Hge].
      * specialize (Hdate bound eq_refl). lia.
      * injection Hpush as <-. cbn [fst]. apply in_or_app. right. now left.
    + injection Hpush as <-. cbn [fst]. apply in_or_app. right. now left.
Qed.

Lemma every_qualifying_file_is_reported_witness :
  exists r,
    scanTranscripts twoDates
      {| projectFilter := None; minDate := Some 1769212800000%Z |} = Return r
    /\ In {| projectPath := "/home/testuser/project1";
             projectDir := "-home-testuser-project1";
             sessionId := Examples.uuid2;
             filePath := Examples.root +++ "/-home-testuser-project1/"
                           +++ Examples.uuid2 +++ ".jsonl";
             fileSize := 512;
             modifiedTime := 1769212800000 |}
          (transcripts r).
Proof.
  eexists. split; [reflexivity |].
  pose proof (every_qualifying_file_is_reported twoDates
                {| projectFilter := None; minDate := Some 1769212800000%Z |} _
                [mkDirent "-home-testuser-project1" true]
                (mkDirent "-home-testuser-project1" true)
                [Examples.uuid1 +++ ".jsonl"; Examples.uuid2 +++ ".jsonl"]
                (Examples.uuid2 +++ ".jsonl") (mkStats 512 1769212800000)
                eq_refl eq_refl (or_introl eq_refl) eq_refl eq_refl eq_refl
                (or_intror (or_introl eq_refl)) eq_refl eq_refl) as Hcases.
  destruct Hcases as [(error & Hthrow & _)|[_ Hin]].
  - intros bound Hb. injection Hb as <-. cbn [mtime]. lia.
  - vm_compute in Hthrow. discriminate Hthrow.
  - exact Hin.
Defined.

(** ** The project filter without wildcards and with a final [*] *)

Module FilterFacts.
Import JsString Scanner StringFacts Glob GlobFacts.

Lemma allChars_append (p : ascii -> bool) (a b : string) :
  Spec.allChars p (a +++ b) = Spec.allChars p a && Spec.allChars p b.
Proof.
  induction a as [|c a IH]; [reflexivity |].
  cbn [String.append Spec.allChars]. now rewrite IH, andb_assoc.
Qed.

Lemma globItem_literal (c : ascii) :
  negb (Ascii.eqb c "*" || Ascii.eqb c "?") = true ->
  globItem c = (RegExp.Char c, RegExp.Once).
Proof.
  unfold globItem. intros H. apply negb_true_iff, orb_false_iff in H as [-> ->].
  reflexivity.
Qed.

Lemma eqb_cons (c d : ascii) (s t : string) :
  String.eqb (String c s) (String d t) = Ascii.eqb c d && String.eqb s t.
Proof. cbn [String.eqb]. now destruct (Ascii.eqb c d). Qed.

(** The expression of a pattern without wildcards matches the pattern
    itself and nothing else. *)
Lemma matchItems_literal (pattern : string) :
  Derived.noWildcard pattern = true ->
  forall path,
    RegExp.matchItems (map globItem (chars pattern)) path
    = String.eqb path pattern.
Proof.
  unfold Derived.noWildcard.
  induction pattern as [|c pattern IH]; intros H path; [reflexivity |].
  cbn [Spec.allChars] in H. apply andb_prop in H as [Hc H].
  cbn [chars map]. rewrite (globItem_literal c Hc).
  cbn [RegExp.matchItems RegExp.exactly].
  destruct path as [|d path]; [reflexivity |].
  cbn [RegExp.matchesAtom]. now rewrite eqb_cons, IH.
Qed.

(** After a literal prefix, a final [*] accepts every rest without a
    line terminator. *)
Lemma matchItems_prefix (prefix : string) :
  Derived.noWildcard prefix = true ->
  forall path, singleLine path = true ->
    RegExp.matchItems (map globItem (chars (prefix +++ "*"))) path
    = String.prefix prefix path.
Proof.
  unfold Derived.noWildcard, singleLine.
  induction prefix as [|c prefix IH]; intros H path Hpath.
  - cbn [String.append chars map]. unfold globItem. cbn [Ascii.eqb Bool.eqb].
    cbn [RegExp.matchItems].
    assert (Hany : RegExp.star RegExp.Any (fun s => String.eqb s "") path = true).
    { induction path as [|d path IHpath]; [reflexivity |].
      cbn [Spec.allChars] in Hpath. apply andb_prop in Hpath as [Hd Hpath].
      cbn [RegExp.star RegExp.matchesAtom]. rewrite Hd, (IHpath Hpath).
      now rewrite orb_true_r. }
    cbn [RegExp.matchItems] in *. rewrite Hany. now destruct path.
  - cbn [Spec.allChars] in H. apply andb_prop in H as [Hc H].
    cbn [String.append chars map]. rewrite (globItem_literal c Hc).
    cbn [RegExp.matchItems RegExp.exactly].
    destruct path as [|d path]; [reflexivity |].
    cbn [Spec.allChars] in Hpath. apply andb_prop in Hpath as [Hd Hpath].
    cbn [RegExp.matchesAtom String.prefix]. rewrite (IH H path Hpath).
    destruct (ascii_dec c d) as [->|Hne].
    + now rewrite Ascii.eqb_refl.
    + destruct (Ascii.eqb_spec d c); [congruence | reflexivity].
Qed.

Lemma not_empty_append (a b : string) : b <> "" -> a +++ b <> "".
Proof. destruct a; simpl; [trivial | discriminate]. Qed.

End FilterFacts.

(** X14. A project filter without wildcards ([*], [?]) and without
    other metacharacters retains exactly the project whose decoded path
    equals the filter; its dots stand for themselves. *)
Theorem filter_without_wildcards_is_equality :
  forall (w : Host) (pattern path : string),
    Glob.conforms (RegExp_test w) ->
    pattern <> "" ->
    Glob.plain pattern = true ->
    noWildcard pattern = true ->
    matchesPattern w path (Some pattern) = Return (String.eqb path pattern).
Proof.
  intros w pattern path Hengine Hnonempty Hplain Hliteral.
  unfold matchesPattern, truthy.
  destruct (String.eqb_spec pattern ""); [congruence |]. cbn [negb].
  rewrite (Hengine _ _ path (GlobFacts.parse_pattern pattern Hplain)).
  unfold RegExp.test. now rewrite FilterFacts.matchItems_literal.
Qed.

Lemma filter_without_wildcards_is_equality_witness :
  matchesPattern Examples.twoProjects "/home/testuser/v1x2"
    (Some "/home/testuser/v1.2")
  = Return false.
Proof.
  apply (filter_without_wildcards_is_equality Examples.twoProjects
           "/home/testuser/v1.2" "/home/testuser/v1x2"
           GlobFacts.fragmentEngine_conforms);
    [discriminate | reflexivity | reflexivity].
Defined.

(** X15. A project filter made of a literal prefix and a final [*]
    retains exactly the projects whose decoded path starts with the
    prefix: the [*] also runs over path separators, so the projects
    nested deeper are retained as well. *)
Theorem filter_with_final_star_is_prefix :
  forall (w : Host) (prefix path : string),
    Glob.conforms (RegExp_test w) ->
    Glob.plain prefix = true ->
    noWildcard prefix = true ->
    Glob.singleLine path = true ->
    matchesPattern w path (Some (prefix +++ "*"))
    = Return (startsWith prefix path).
Proof.
  intros w prefix path Hengine Hplain Hliteral Hpath.
  assert (Hplain' : Glob.plain (prefix +++ "*") = true).
  { unfold Glob.plain in *. rewrite FilterFacts.allChars_append, Hplain.
    reflexivity. }
  unfold matchesPattern, truthy.
  destruct (String.eqb_spec (prefix +++ "*") "") as [Hempty|_].
  - now apply FilterFacts.not_empty_append in Hempty.
  - cbn [negb].
    rewrite (Hengine _ _ path (GlobFacts.parse_pattern _ Hplain')).
    unfold RegExp.test, startsWith.
    now rewrite FilterFacts.matchItems_prefix.
Qed.

Lemma filter_with_final_star_is_prefix_witness :
  matchesPattern Examples.twoProjects "/home/testuser/workspace/foo/bar"
    (Some "/home/testuser/workspace/*")
  = Return true.
Proof.
  apply (filter_with_final_star_is_prefix Examples.twoProjects
           "/home/testuser/workspace/" "/home/testuser/workspace/foo/bar"
           GlobFacts.fragmentEngine_conforms); reflexivity.
Defined.

(** ** The date bound and the scan without one *)

Module DateFacts.
Import JsString PathDecoder Scanner ScannerFacts.

Lemma forOf_sameOutcome {A S1 S2 : Type} (R : S1 -> S2 -> Prop)
    (body1 : A -> S1 -> result S1) (body2 : A -> S2 -> result S2)
    (xs : list A) :
  (forall x s1 s2, R s1 s2 -> sameOutcome R (body1 x s1) (body2 x s2)) ->
  forall s1 s2, R s1 s2 ->
    sameOutcome R (forOf xs body1 s1) (forOf xs body2 s2).
Proof.
  intros Hbody. induction xs as [|x xs IH]; intros s1 s2 HR; [exact HR |].
  cbn [forOf]. specialize (Hbody x s1 s2 HR). unfold sameOutcome in Hbody.
  destruct (body1 x s1) as [t1|e1], (body2 x s2) as [t2|e2];
    cbn [bind]; try contradiction.
  - now apply IH.
  - exact Hbody.
Qed.

Lemma scanFile_dateRelated (w : Host) (filter_ : option string) (bound : Z)
    (path dir full fileName : string) (s1 s2 : State) :
  dateRelated bound s1 s2 ->
  sameOutcome (dateRelated bound)
    (scanFile w {| projectFilter := filter_; minDate := None |}
       path dir full fileName s1)
    (scanFile w {| projectFilter := filter_; minDate := Some bound |}
       path dir full fileName s2).
Proof.
  intros [Hkept Hcons]. unfold scanFile.
  destruct (_ || _); [now split |].
  destruct (negb _); [now split |].
  destruct (stat w _) as [fileStats|e]; cbn [bind sameOutcome]; [|reflexivity].
  cbn [minDate].
  destruct (Z.ltb (mtime fileStats) bound) eqn:Hold; cbn [sameOutcome].
  - split; [|exact Hcons]. cbn [fst].
    rewrite filter_app. cbn [filter]. unfold notBefore at 2.
    cbn [modifiedTime]. rewrite Hold. cbn [negb]. now rewrite app_nil_r.
  - split.
    + cbn [fst]. rewrite filter_app. cbn [filter]. unfold notBefore at 2.
      cbn [modifiedTime]. rewrite Hold. cbn [negb]. now rewrite Hkept.
    + destruct Hcons as [Hnodup Hsame]. split; cbn [fst snd].
      * now apply set_add_nodup.
      * intros d. rewrite set_add_iff, map_app, in_app_iff, Hsame. simpl.
        intuition congruence.
Qed.

Lemma scanEntry_dateRelated (w : Host) (filter_ : option string) (bound : Z)
    (projectsDir : string) (entry : Dirent) (s1 s2 : State) :
  dateRelated bound s1 s2 ->
  sameOutcome (dateRelated bound)
    (scanEntry w {| projectFilter := filter_; minDate := None |}
       projectsDir entry s1)
    (scanEntry w {| projectFilter := filter_; minDate := Some bound |}
       projectsDir entry s2).
Proof.
  intros HR. unfold scanEntry. cbn [projectFilter].
  destruct (negb (isDirectory entry)); [exact HR |].
  destruct (matchesPattern w _ filter_) as [[|]|e]; cbn [bind negb sameOutcome];
    [|exact HR | reflexivity].
  destruct (readdir w _) as [files|e]; cbn [bind sameOutcome]; [|reflexivity].
  apply forOf_sameOutcome; [|exact HR].
  intros fileName t1 t2. apply scanFile_dateRelated.
Qed.

Lemma tryBlock_dateRelated (w : Host) (filter_ : option string) (bound : Z)
    (projectsDir : string) :
  sameOutcome (dateRelated bound)
    (tryBlock w {| projectFilter := filter_; minDate := None |}
       projectsDir ([], empty_set string))
    (tryBlock w {| projectFilter := filter_; minDate := Some bound |}
       projectsDir ([], empty_set string)).
Proof.
  unfold tryBlock.
  destruct (readdirWithFileTypes w projectsDir) as [entries|e];
    cbn [bind sameOutcome]; [|reflexivity].
  apply forOf_sameOutcome.
  - intros entry t1 t2. apply scanEntry_dateRelated.
  - split; [reflexivity | apply consistent_initial].
Qed.

End DateFacts.

(** X16. A scan with [minDate] is the scan without it, filtered
    afterwards: it throws the same error, or returns the records of the
    unbounded result that are not older than the bound, in the same
    order, with [totalSize] the sizes of those records added in that
    order as the scan adds numbers, and [projectCount] the number of
    their distinct directories.  The bound saves no [stat] call and
    hides no failure. *)
Theorem minDate_filters_the_unbounded_scan :
  forall (w : Host) (filter_ : option string) (bound : Z),
    scanTranscripts w {| projectFilter := filter_; minDate := Some bound |}
    = match scanTranscripts w {| projectFilter := filter_; minDate := None |} with
      | Return r => Return (restrictToDate bound r)
      | Throw error => Throw error
      end.
Proof.
  intros w filter_ bound.
  pose proof (DateFacts.tryBlock_dateRelated w filter_ bound (projectsDirOf w))
    as Hsim.
  unfold scanTranscripts. unfold sameOutcome in Hsim.
  destruct (tryBlock w {| projectFilter := filter_; minDate := None |}
              (projectsDirOf w) ([], empty_set string)) as [[ts ds]|e],
           (tryBlock w {| projectFilter := filter_; minDate := Some bound |}
              (projectsDirOf w) ([], empty_set string)) as [[ts' ds']|e'];
    try contradiction.
  - destruct Hsim as [Hkept Hcons]. cbn [fst snd] in *. subst ts'.
    unfold restrictToDate. cbn [transcripts]. f_equal. f_equal.
    apply (ScannerFacts.consistent_count _ Hcons).
  - subst e'. destruct (notFound e); reflexivity.
Qed.

(** X17. Decoding is idempotent: the decoded path of a name, given to
    [decode] again, comes back unchanged, whatever the file system
    holds then. *)
Theorem decode_idempotent :
  forall (existsSync existsSync' : string -> bool) (name : string),
    decodeProjectPath existsSync' (decodeProjectPath existsSync name)
    = decodeProjectPath existsSync name.
Proof.
  intros ex ex' name.
  destruct (startsWith "-" name) eqn:Hmarker.
  - pose proof (CandidateFacts.decode_candidate ex name Hmarker) as Hin.
    destruct (CandidateFacts.split_cons "-" (slice 1 name)) as (seg & segs & Hsplit).
    rewrite Hsplit, CandidateFacts.candidates_suffixes in Hin.
    apply in_map_iff in Hin as (t & <- & _).
    unfold decodeProjectPath at 1. unfold startsWith. cbn [String.append String.prefix].
    reflexivity.
  - unfold decodeProjectPath at 2. rewrite Hmarker. cbn [negb].
    unfold decodeProjectPath. now rewrite Hmarker.
Qed.

(** ** The transcripts of a scan that completes *)

Module OrderFacts.
Import JsString PathDecoder Scanner ScannerFacts FileNameFacts.

Lemma forOf_appends {A T S : Type} (body : A -> (list T * S) -> result (list T * S))
    (f : A -> list T) (xs : list A) :
  (forall x s s', body x s = Return s' -> fst s' = fst s ++ f x) ->
  forall st st', forOf xs body st = Return st' ->
    fst st' = fst st ++ flat_map f xs.
Proof.
  intros Hbody. induction xs as [|x xs IH]; intros st st' Hrun.
  - injection Hrun as <-. cbn [flat_map]. now rewrite app_nil_r.
  - cbn [forOf] in Hrun. destruct (body x st) as [s1|e] eqn:Hx; [|discriminate].
    cbn [bind] in Hrun. rewrite (IH s1 st' Hrun), (Hbody x st s1 Hx).
    cbn [flat_map]. now rewrite app_assoc.
Qed.

Lemma scanFile_appends (w : Host) (options : ScanOptions)
    (path dir full fileName : string) (st st' : State) :
  scanFile w options path dir full fileName st = Return st' ->
  fst st' = fst st ++ recordsOfFile w options path dir full fileName.
Proof.
  unfold recordsOfFile. intros Hrun. destruct (Spec.qualifies fileName) eqn:Hq.
  - rewrite (scanFile_qualified w options path dir full fileName st Hq) in Hrun.
    destruct (stat w (path_join w [full; fileName])) as [fileStats|e];
      [|discriminate].
    cbn [bind] in Hrun.
    destruct (match minDate options with Some _ => _ | None => _ end);
      injection Hrun as <-; [now rewrite app_nil_r | reflexivity].
  - rewrite (scanFile_skipped w options path dir full fileName st Hq) in Hrun.
    injection Hrun as <-. now rewrite app_nil_r.
Qed.

Lemma scanEntry_appends (w : Host) (options : ScanOptions) (projectsDir : string)
    (entry : Dirent) (st st' : State) :
  scanEntry w options projectsDir entry st = Return st' ->
  fst st' = fst st ++ recordsOfEntry w options projectsDir entry.
Proof.
  unfold scanEntry, recordsOfEntry. intros Hrun.
  destruct (isDirectory entry); cbn [negb] in Hrun;
    [|injection Hrun as <-; now rewrite app_nil_r].
  cbv zeta.
  destruct (matchesPattern w _ _) as [[|]|e]; cbn [bind negb] in Hrun;
    [|injection Hrun as <-; now rewrite app_nil_r | discriminate].
  destruct (readdir w _) as [files|e]; cbn [bind] in Hrun; [|discriminate].
  revert Hrun. apply forOf_appends.
  intros fileName s s'. apply scanFile_appends.
Qed.

End OrderFacts.

(** X18. When the scan returns and the projects directory was listed,
    either a call of the [try] block threw an error with the code
    [ENOENT] and the result is the empty result, or the block ran to its
    end and the transcripts are exactly, in the order of the listings
    (directories in the order of the root listing, files in the order
    of their directory's listing), the records of the qualifying files
    of the retained directories that are not older than [minDate]:
    nothing else, nothing twice that is not listed twice. *)
Theorem transcripts_follow_the_listings :
  forall (w : Host) (options : ScanOptions) (r : ScanResult)
         (entries : list Dirent),
    scanTranscripts w options = Return r ->
    readdirWithFileTypes w (projectsDirOf w) = Return entries ->
    (exists error,
        tryBlock w options (projectsDirOf w) ([], empty_set string) = Throw error
        /\ code error = Some "ENOENT"
        /\ r = emptyResult)
    \/ ((exists st,
           tryBlock w options (projectsDirOf w) ([], empty_set string) = Return st)
        /\ transcripts r = expectedTranscripts w options entries).
Proof.
  intros w options r entries Hscan Hlist.
  destruct (RecordFacts.scan_returned_cases w options r Hscan)
    as [Hthrown|(st & Htry & Hts)]; [now left |].
  right. split; [now exists st |].
  rewrite Hts. unfold tryBlock in Htry. rewrite Hlist in Htry.
  cbn [bind] in Htry. unfold expectedTranscripts.
  change (fst st = fst (@nil TranscriptFile, empty_set string)
                   ++ flat_map (recordsOfEntry w options (projectsDirOf w)) entries).
  revert Htry. apply OrderFacts.forOf_appends.
  intros entry s s'. apply OrderFacts.scanEntry_appends.
Qed.

Lemma transcripts_follow_the_listings_witness :
  exists r,
    scanTranscripts twoDates Examples.noOptions = Return r
    /\ map sessionId (transcripts r) = [Examples.uuid1; Examples.uuid2]
    /\ transcripts r
       = expectedTranscripts twoDates Examples.noOptions
           [mkDirent "-home-testuser-project1" true].
Proof.
  eexists. split; [reflexivity |]. split; [reflexivity |].
  pose proof (transcripts_follow_the_listings twoDates Examples.noOptions _
                [mkDirent "-home-testuser-project1" true] eq_refl eq_refl)
    as Hcases.
  destruct Hcases as [(error & Hthrow & _)|[_ Hsame]].
  - vm_compute in Hthrow. discriminate Hthrow.
  - exact Hsame.
Defined.
